(** * zameen-data-scraper: the scraping engine of [function_app.py]

    A shallow embedding of [convert_price], [convert_size], [text],
    [extract_additional_features], [scrap] and the per-city loop of
    [ZameenScraper], with the properties of the specification proved (or
    refuted) over it.

    Layout:
    - [Py]: the Python builtins the code calls ([str.strip], [str.endswith],
      slicing, [str.replace], [float], [int], [round], float [*]) and
      exceptions as an error monad; a [str] is a sequence of Unicode code
      points, and the builtins are those of CPython 3.11 (Unicode 14.0);
    - [Normalizer]: [convert_price] and [convert_size];
    - [Parser]: the DOM view of one listing, [text],
      [extract_additional_features] and the body of the per-listing loop;
    - [Scraper]: [scrap], the pagination loop with its circuit breaker;
    - [Orchestrator]: the per-city loop of [ZameenScraper];
    - the theorems, one block per component. *)

From Stdlib Require Import ZArith Ascii String List Bool Lia.
From Stdlib Require Import SpecFloat.
From stdpp Require Import base tactics option list list_numbers gmap strings.

Local Open Scope Z_scope.

(* ===================================================================== *)
(** * Python builtins *)
(* ===================================================================== *)

Module Py.

(** Exceptions that the modelled code can see. *)
Inductive exn : Type :=
  | ValueError
  | TypeError
  | OverflowError
  | AttributeError.

Inductive Result (A : Type) : Type :=
  | Ok (a : A)
  | Raise (e : exn).
Arguments Ok {A} a.
Arguments Raise {A} e.

(** Sequencing: the first exception raised ends the computation. The
    notation [x ← c; k] is stdpp's, through [MBind]. *)
Global Instance result_bind : MBind Result := fun A B k r =>
  match r with
  | Ok a => k a
  | Raise e => Raise e
  end.
Global Instance result_ret : MRet Result := fun A a => Ok a.
Global Instance result_fmap : FMap Result := fun A B f r =>
  match r with
  | Ok a => Ok (f a)
  | Raise e => Raise e
  end.

(** [try: body except (ValueError, TypeError): return dflt]. *)
Definition except_value_type {A} (body : Result A) (dflt : A) : Result A :=
  match body with
  | Raise ValueError | Raise TypeError => Ok dflt
  | r => r
  end.

(** [try: body except ValueError: return dflt]. *)
Definition except_value {A} (body : Result A) (dflt : A) : Result A :=
  match body with
  | Raise ValueError => Ok dflt
  | r => r
  end.

(** A Python [str] is a sequence of Unicode code points; a character is
    its code point. *)
Abbreviation str := (list N).

(** The code point of a character literal, and the [str] of a literal. *)
Definition ch (a : ascii) : N := N_of_ascii a.
Arguments ch : simpl never.

Definition chars (s : string) : str := ch <$> list_ascii_of_string s.

(** [c.isspace()], the characters that [str.strip] removes: TAB..CR,
    FS..US, space, NEL, the no-break space, and the Unicode spaces U+1680,
    U+2000..U+200A, U+2028, U+2029, U+202F, U+205F and U+3000. *)
Definition isspace (c : N) : bool :=
  ((9 <=? c) && (c <=? 13) || (28 <=? c) && (c <=? 32) || (c =? 133) || (c =? 160)
   || (c =? 5760) || (8192 <=? c) && (c <=? 8202) || (c =? 8232) || (c =? 8233)
   || (c =? 8239) || (c =? 8287) || (c =? 12288))%N.

(** The digit test of the C parsers: '0'..'9'. *)
Definition isdigit (c : N) : bool := ((48 <=? c) && (c <=? 57))%N.

Definition digit_value (c : N) : Z := Z.of_N c - 48.

Fixpoint drop_while (p : N -> bool) (s : str) : str :=
  match s with
  | [] => []
  | c :: s' => if p c then drop_while p s' else s
  end.

Fixpoint span (p : N -> bool) (s : str) : str * str :=
  match s with
  | [] => ([], [])
  | c :: s' => if p c then let '(a, b) := span p s' in (c :: a, b) else ([], s)
  end.

(** Removal of leading and trailing characters of a class. *)
Definition strip_class (p : N -> bool) (s : str) : str :=
  rev (drop_while p (rev (drop_while p s))).

(** [s.strip()]. *)
Definition strip (s : str) : str := strip_class isspace s.

Fixpoint startswith (s x : str) {struct x} : bool :=
  match x, s with
  | [], _ => true
  | _ :: _, [] => false
  | c :: x', d :: s' => (c =? d)%N && startswith s' x'
  end.

(** [s.endswith(x)]. *)
Definition endswith (s x : str) : bool := startswith (rev s) (rev x).

(** [s[:-k]] for a positive literal [k]. *)
Definition drop_last (k : nat) (s : str) : str := take (length s - k)%nat s.

(** [s.replace(",", "")]. *)
Definition remove_commas (s : str) : str :=
  List.filter (fun c => negb (c =? ch ",")%N) s.

(** ** Floats

    A Python [float] is an IEEE 754 binary64 number: [spec_float] with
    precision 53 and [emax] 1024. *)

Definition prec : Z := 53.
Definition emax : Z := 1024.

Definition float_mul (x y : spec_float) : spec_float := SFmul prec emax x y.

(** Conversion of a Python [int] to [float] (the implicit conversion of
    [float * int]); exact for the constants of this program. *)
Definition float_of_int (z : Z) : spec_float := binary_normalize prec emax z 0 false.

Definition is_nan (x : spec_float) : bool :=
  match x with S754_nan => true | _ => false end.

(** The integer nearest to [m / d], ties to the even one ([0 < d]). *)
Definition div_half_even (m d : Z) : Z :=
  let q := m / d in
  let r := m mod d in
  match 2 * r ?= d with
  | Lt => q
  | Gt => q + 1
  | Eq => if Z.even q then q else q + 1
  end.

(** [round(x)] with one argument: the nearest [int], ties to even;
    [OverflowError] on an infinity, [ValueError] on a NaN. *)
Definition round (x : spec_float) : Result Z :=
  match x with
  | S754_zero _ => Ok 0
  | S754_infinity _ => Raise OverflowError
  | S754_nan => Raise ValueError
  | S754_finite s m e =>
      let a := match e with
               | Zneg k => div_half_even (Zpos m) (2 ^ Zpos k)
               | _ => Zpos m * 2 ^ e
               end in
      Ok (if s then - a else a)
  end.

(** ** [float(s)] and [int(s)] on a [str] *)

(** [float] and [int] first turn a [str] into ASCII, then run a parser on
    it (CPython's [_PyUnicode_TransformDecimalAndSpaceToASCII], followed by
    [float_from_string_inner] and [PyLong_FromString]). *)

(** The code points with decimal value 0 (Unicode 14.0, the table of
    CPython 3.11); the digits 1 to 9 follow each of them. *)
Definition decimal_zeros : list N :=
  [48; 1632; 1776; 1984; 2406; 2534; 2662; 2790; 2918; 3046; 3174; 3302;
   3430; 3558; 3664; 3792; 3872; 4160; 4240; 6112; 6160; 6470; 6608; 6784;
   6800; 6992; 7088; 7232; 7248; 42528; 43216; 43264; 43472; 43504; 43600;
   44016; 65296; 66720; 68912; 69734; 69872; 69942; 70096; 70384; 70736;
   70864; 71248; 71360; 71472; 71904; 72016; 72784; 73040; 73120; 92768;
   92864; 93008; 120782; 120792; 120802; 120812; 120822; 123200; 123632;
   125264; 130032]%N.

(** [Py_UNICODE_TODECIMAL]: the decimal value of a digit. *)
Definition todecimal (c : N) : option N :=
  (λ zero, c - zero)%N <$>
  find (λ zero, (zero <=? c) && (c <? zero + 10))%N decimal_zeros.

(** The ASCII form of a [str] with a code point above 127: a code point
    below 127 is kept, any other whitespace becomes a space, a decimal digit
    becomes the ASCII digit of its value, and at the first other character
    a ['?'] is written and the rest is cut off. *)
Fixpoint transform (s : str) : str :=
  match s with
  | [] => []
  | c :: s' =>
      if (c <? 127)%N then c :: transform s'
      else if isspace c then ch " " :: transform s'
      else
        match todecimal c with
        | Some d => (ch "0" + d)%N :: transform s'
        | None => [ch "?"]
        end
  end.

(** A [str] of code points below 128 is taken as it is. *)
Definition to_ascii (s : str) : str :=
  if forallb (λ c, c <? 128)%N s then s else transform s.

(** The whitespace that the C parsers skip at both ends ([Py_ISSPACE]):
    TAB..CR and space. *)
Definition c_isspace (c : N) : bool :=
  ((9 <=? c) && (c <=? 13) || (c =? 32))%N.

(** Underscores are accepted between two digits only, and dropped. [prev] is
    the character before [s]. *)
Definition is_underscore (c : N) : bool := (c =? ch "_")%N.

Fixpoint drop_underscores (prev : option N) (s : str) : option str :=
  match s with
  | [] => if from_option is_underscore false prev then None else Some []
  | c :: s' =>
      if is_underscore c then
        if from_option isdigit false prev then drop_underscores (Some c) s'
        else None
      else if from_option is_underscore false prev && negb (isdigit c) then None
      else cons c <$> drop_underscores (Some c) s'
  end.

(** The value of a digit string, read in base 10. *)
Definition digits_value (ds : str) : Z :=
  fold_left (fun acc c => 10 * acc + digit_value c) ds 0.

(** An optional sign: [(negative, rest)]. *)
Definition sign (s : str) : bool * str :=
  match s with
  | c :: s' =>
      if (c =? ch "-")%N then (true, s')
      else if (c =? ch "+")%N then (false, s')
      else (false, s)
  | [] => (false, [])
  end.

(** The lower case of an ASCII letter. *)
Definition lower (c : N) : N :=
  if ((65 <=? c) && (c <=? 90))%N then (c + 32)%N else c.

Definition str_eqb (a b : str) : bool := bool_decide (a = b).

(** A decimal literal [digits [. digits] [e [sign] digits]] (at least one
    digit before the exponent): [(mantissa, exponent)] with value
    [mantissa * 10 ^ exponent]. *)
Definition decimal_literal (s : str) : option (Z * Z) :=
  let '(ip, s1) := span isdigit s in
  let '(fp, s2) := match s1 with
                   | c :: t => if (c =? ch ".")%N then span isdigit t
                               else ([], s1)
                   | [] => ([], s1)
                   end in
  if str_eqb (ip ++ fp) [] then None
  else
    let m := digits_value (ip ++ fp) in
    let e0 := - Z.of_nat (length fp) in
    match s2 with
    | [] => Some (m, e0)
    | c :: t =>
        if (lower c =? ch "e")%N then
          let '(eneg, t1) := sign t in
          let '(ed, t2) := span isdigit t1 in
          if str_eqb ed [] || negb (str_eqb t2 []) then None
          else
            let e := digits_value ed in
            Some (m, (if eneg then - e else e) + e0)
        else None
    end.

(** The binary64 number nearest to [m * 10 ^ e] (ties to even), with sign
    [neg]; [0 <= m]. *)
Definition float_of_decimal (neg : bool) (m e : Z) : spec_float :=
  match m with
  | Zpos p =>
      match e with
      | Zneg k =>
          let '(mz, ez, lz) := SFdiv_core_binary prec emax (Zpos p) 0 (10 ^ Zpos k) 0 in
          binary_round_aux prec emax neg mz ez lz
      | _ =>
          binary_round prec emax neg (p * Z.to_pos (10 ^ e))%positive 0
      end
  | _ => S754_zero neg
  end.

(** What [float] accepts once whitespace and underscores are gone. *)
Definition float_literal (s : str) : option spec_float :=
  let '(neg, body) := sign s in
  let word := map lower body in
  if str_eqb word (chars "inf") || str_eqb word (chars "infinity") then
    Some (S754_infinity neg)
  else if str_eqb word (chars "nan") then Some S754_nan
  else
    match decimal_literal body with
    | Some (m, e) => Some (float_of_decimal neg m e)
    | None => None
    end.

(** The parser of [float] on the ASCII form. *)
Definition float_of_ascii (a : str) : Result spec_float :=
  match drop_underscores None (strip_class c_isspace a) with
  | Some lit =>
      match float_literal lit with
      | Some x => Ok x
      | None => Raise ValueError
      end
  | None => Raise ValueError
  end.

(** [float(s)] for a [str] argument. *)
Definition float (s : str) : Result spec_float := float_of_ascii (to_ascii s).

(** The limit on the number of digits [int] converts. *)
Definition int_max_str_digits : nat := 4300.

(** The parser of [int] on the ASCII form, base 10. *)
Definition int_of_ascii (a : str) : Result Z :=
  match drop_underscores None (strip_class c_isspace a) with
  | Some lit =>
      let '(neg, ds) := sign lit in
      if str_eqb ds [] || negb (forallb isdigit ds)
         || (int_max_str_digits <? length ds)%nat
      then Raise ValueError
      else Ok (if neg then - digits_value ds else digits_value ds)
  | None => Raise ValueError
  end.

(** [int(s)] for a [str] argument. *)
Definition int (s : str) : Result Z := int_of_ascii (to_ascii s).

End Py.

Import Py.

(* ===================================================================== *)
(** * FieldNormalizer: [convert_price] and [convert_size] *)
(* ===================================================================== *)

Module Normalizer.

(** [convert_price(price)], lines 185-214. The result of [round] is a Python
    [int]; the handler catches [ValueError] and [TypeError] only. *)
Definition convert_price (price : str) : Result Z :=
  if str_eqb price [] then Ok 0
  else
    let price := strip price in
    except_value_type
      (if endswith price (chars "Crore") then
         x ← float (remove_commas (strip (drop_last 5 price)));
         round (float_mul x (float_of_int 10000000))
       else if endswith price (chars "Lakh") then
         x ← float (remove_commas (strip (drop_last 4 price)));
         round (float_mul x (float_of_int 100000))
       else if endswith price (chars "Million") then
         x ← float (remove_commas (strip (drop_last 7 price)));
         round (float_mul x (float_of_int 1000000))
       else if endswith price (chars "Arab") then
         x ← float (remove_commas (strip (drop_last 4 price)));
         round (float_mul x (float_of_int 1000000000))
       else if endswith price (chars "Thousand") then
         x ← float (remove_commas (strip (drop_last 8 price)));
         round (float_mul x (float_of_int 1000))
       else
         x ← float (remove_commas price);
         round x)
      0.

(** [convert_size(size)], lines 217-244. *)
Definition convert_size (size : str) : Result Z :=
  if str_eqb size [] then Ok 0
  else
    let size := strip size in
    except_value_type
      (if endswith size (chars "Marla") then
         x ← float (remove_commas (strip (drop_last 5 size)));
         round (float_mul x (float_of_int 225))
       else if endswith size (chars "Kanal") then
         x ← float (remove_commas (strip (drop_last 5 size)));
         round (float_mul x (float_of_int 4500))
       else if endswith size (chars "Sq. Yd.") then
         x ← float (remove_commas (strip (drop_last 7 size)));
         round (float_mul x (float_of_int 9))
       else if endswith size (chars "Sq. Ft.") then
         x ← float (remove_commas (strip (drop_last 7 size)));
         round x
       else
         x ← float (remove_commas size);
         round x)
      0.

End Normalizer.

Import Normalizer.

(* ===================================================================== *)
(** * ListingParser: [text], [extract_additional_features] and the body of
      the per-listing loop of [scrap] *)
(* ===================================================================== *)

Module Parser.

(** A BeautifulSoup tag, seen through its [.text]. A tag is always truthy:
    [if tag:] tests [tag is not None]. *)
Record Tag : Type := { tag_text : str }.

(** A Python value stored in a listing dict. *)
Inductive value : Type :=
  | VInt (z : Z)
  | VFloat (x : spec_float)
  | VStr (s : str).

Inductive datatype : Type := dt_num | dt_str | dt_price | dt_size.

(** [text(tag, datatype)], lines 247-273. *)
Definition text (tag : option Tag) (dt : datatype) : Result value :=
  match dt, tag with
  | dt_num, None => Ok (VInt 0)
  | dt_num, Some t => VInt <$> except_value (int (strip (tag_text t))) 0
  | dt_str, None => Ok (VStr [])
  | dt_str, Some t => Ok (VStr (strip (tag_text t)))
  | dt_price, None => Ok (VFloat (S754_zero false))
  | dt_price, Some t => VInt <$> convert_price (strip (tag_text t))
  | dt_size, None => Ok (VFloat (S754_zero false))
  | dt_size, Some t => VInt <$> convert_size (strip (tag_text t))
  end.

(** One listing node of a page, seen through the selectors the code applies
    to it; [None] is a selector without a match. [sel_parent_size] is what
    [location.parent.select_one(...)] returns, and has a meaning only when
    [sel_location] is a tag. [clock] is the reading of
    [datetime.now().isoformat()] taken for this listing. *)
Record House : Type := {
  sel_baths : option Tag;
  sel_beds : option Tag;
  sel_location : option Tag;
  sel_price : option Tag;
  sel_size : option Tag;
  sel_parent_size : option Tag;
  sel_property_type : option Tag;
  sel_date_added : option Tag;
  sel_reference : option Tag;
  clock : str
}.

Record Features : Type := {
  f_property_type : value;
  f_date_added : value;
  f_listing_id : value
}.

(** [text(element) if element else ""]. *)
Definition text_or_empty (tag : option Tag) : Result value :=
  match tag with
  | Some _ => text tag dt_str
  | None => Ok (VStr [])
  end.

(** [extract_additional_features(house)], lines 276-309: every exception is
    answered with three empty strings. *)
Definition extract_additional_features (house : House) : Features :=
  let body : Result Features :=
    property_type ← text_or_empty (sel_property_type house);
    date_added ← text_or_empty (sel_date_added house);
    listing_id ← text_or_empty (sel_reference house);
    Ok {| f_property_type := property_type;
          f_date_added := date_added;
          f_listing_id := listing_id |} in
  match body with
  | Ok features => features
  | Raise _ => {| f_property_type := VStr [];
                  f_date_added := VStr [];
                  f_listing_id := VStr [] |}
  end.

(** The dict appended to [house_info]. *)
Record Listing : Type := {
  location : value;
  price : value;
  bedrooms : value;
  baths : value;
  size : value;
  property_type : value;
  date_added : value;
  original_listing_id : value;
  scrape_date : str
}.

(** [location.parent.select_one(...)]: an attribute access on [None] raises
    [AttributeError]. *)
Definition location_parent_select (house : House) : Result (option Tag) :=
  match sel_location house with
  | Some _ => Ok (sel_parent_size house)
  | None => Raise AttributeError
  end.

(** The [try] body of the per-listing loop, lines 379-408: [Ok None] when the
    price selector has no match, [Ok (Some listing)] when the listing is
    appended. *)
Definition listing_of (house : House) : Result (option Listing) :=
  match sel_price house with
  | Some _ =>
      size_tag ← match sel_size house with
                 | None => location_parent_select house
                 | Some t => Ok (Some t)
                 end;
      let additional_features := extract_additional_features house in
      v_location ← text (sel_location house) dt_str;
      v_price ← text (sel_price house) dt_price;
      v_bedrooms ← text (sel_beds house) dt_num;
      v_baths ← text (sel_baths house) dt_num;
      v_size ← text size_tag dt_size;
      Ok (Some {| location := v_location;
                  price := v_price;
                  bedrooms := v_bedrooms;
                  baths := v_baths;
                  size := v_size;
                  property_type := f_property_type additional_features;
                  date_added := f_date_added additional_features;
                  original_listing_id := f_listing_id additional_features;
                  scrape_date := clock house |})
  | None => Ok None
  end.

(** One iteration of [for house in house_list], lines 377-412:
    [except Exception: continue] drops the listing. *)
Definition process_house (house_info : list Listing) (house : House) : list Listing :=
  match listing_of house with
  | Ok (Some listing_data) => house_info ++ [listing_data]
  | Ok None => house_info
  | Raise _ => house_info
  end.

(** The whole [for house in house_list] loop. *)
Definition process_houses (house_info : list Listing) (house_list : list House)
  : list Listing :=
  fold_left process_house house_list house_info.

End Parser.

Import Parser.

(* ===================================================================== *)
(** * CityScraper: [scrap] *)
(* ===================================================================== *)

Module Scraper.

(** What the site answers for one page, as the code classifies it:
    - [RequestFailed]: [requests.get] or [raise_for_status] raised a
      [RequestException];
    - [NotHtml]: the body is blank or has no ["<html"];
    - [Crashed]: any other exception raised before the listings are read;
    - [Html main_list tiles]: a parsed page, with the nodes matched by
      ["main > div > div > div > div > ul > li"] and by ["div.listingTile"]. *)
Inductive Response : Type :=
  | RequestFailed (msg : string)
  | NotHtml
  | Crashed (msg : string)
  | Html (main_list tiles : list House).

(** The site, for one city: page number to response. *)
Definition Site : Type := Z -> Response.

(** The local variables of [scrap], and the pages whose fetch was attempted
    so far (oldest first). The sleeps between requests are not modelled. *)
Record State : Type := {
  house_info : list Listing;
  consecutive_errors : Z;
  requests : list Z
}.

Definition max_consecutive_errors : Z := 3.

Inductive control : Type := Continue | Break.

(** [house_list]: the first selector, then the alternative one. *)
Definition house_list_of (main_list tiles : list House) : list House :=
  match main_list with
  | [] => tiles
  | _ :: _ => main_list
  end.

(** The body of the page loop below the breaker test, lines 340-433. *)
Definition page_body (site : Site) (page_number : Z) (st : State)
  : control * State :=
  let requested := requests st ++ [page_number] in
  let failed :=
    {| house_info := house_info st;
       consecutive_errors := consecutive_errors st + 1;
       requests := requested |} in
  match site page_number with
  | RequestFailed _ => (Continue, failed)
  | NotHtml => (Continue, failed)
  | Crashed _ => (Continue, failed)
  | Html main_list tiles =>
      match house_list_of main_list tiles with
      | [] =>
          (Break, {| house_info := house_info st;
                     consecutive_errors := consecutive_errors st;
                     requests := requested |})
      | house_list =>
          let prev_len := length (house_info st) in
          let house_info' := process_houses (house_info st) house_list in
          let st' := {| house_info := house_info';
                        consecutive_errors := 0;
                        requests := requested |} in
          if (length house_info' =? prev_len)%nat then (Break, st')
          else (Continue, st')
      end
  end.

(** [for page_number in pages: ...], with the breaker test first. *)
Fixpoint scrap_loop (site : Site) (pages : list Z) (st : State) : State :=
  match pages with
  | [] => st
  | page_number :: rest =>
      if max_consecutive_errors <=? consecutive_errors st then st
      else
        match page_body site page_number st with
        | (Continue, st') => scrap_loop site rest st'
        | (Break, st') => st'
        end
  end.

Definition initial : State :=
  {| house_info := []; consecutive_errors := 0; requests := [] |}.

(** [range(1, pages_range + 1)]. *)
Definition page_range (pages_range : Z) : list Z := seqZ 1 pages_range.

(** The final state of [scrap(city, pages_range)]. *)
Definition scrap_run (site : Site) (pages_range : Z) : State :=
  scrap_loop site (page_range pages_range) initial.

(** [scrap(city, pages_range)], lines 312-437: the list it returns. *)
Definition scrap (site : Site) (pages_range : Z) : list Listing :=
  house_info (scrap_run site pages_range).

End Scraper.

Import Scraper.

(* ===================================================================== *)
(** * RunOrchestrator: the per-city loop of [ZameenScraper] *)
(* ===================================================================== *)

Module Orchestrator.

Record City : Type := { city_id : Z; city_name : string }.

(** The list of cities, lines 60-72. *)
Definition cities : list City :=
  [ {| city_id := 1; city_name := "Lahore" |};
    {| city_id := 2; city_name := "Karachi" |};
    {| city_id := 3; city_name := "Islamabad" |};
    {| city_id := 15; city_name := "Multan" |};
    {| city_id := 16; city_name := "Faisalabad" |};
    {| city_id := 17; city_name := "Peshawar" |};
    {| city_id := 18; city_name := "Quetta" |};
    {| city_id := 41; city_name := "Rawalpindi" |};
    {| city_id := 36; city_name := "Murree" |};
    {| city_id := 327; city_name := "Gujranwala" |};
    {| city_id := 1233; city_name := "Attock" |} ].

(** One entry of [city_stats]. An ["error"] entry has no ["listings_count"]
    key. The wall-clock ["duration_seconds"] is left out. *)
Inductive CityStat : Type :=
  | no_data
  | success (count : Z)
  | error (error_message : string).

(** [entry["listings_count"]], where the key exists. *)
Definition listings_count (entry : CityStat) : option Z :=
  match entry with
  | no_data => Some 0
  | success count => Some count
  | error _ => None
  end.

(** What the outside does while one city is processed: the site's pages, and
    the exception (its [str]) that a call raises, if it does; these are
    instances of [Exception], what [except Exception] catches. [scrap_fault]
    is an exception that leaves [scrap] although its own handlers cover the
    page loop. *)
Record CityWorld : Type := {
  site : Site;
  scrap_fault : option string;
  json_upload_fault : option string;
  csv_upload_fault : option string
}.

(** [total_listings], [city_stats], and the cities [scrap] was called for
    (oldest first). *)
Record Run : Type := {
  total_listings : Z;
  city_stats : gmap string CityStat;
  scraped : list City
}.

(** One iteration of [for city in cities], lines 99-169. An exception leaves
    the [try] at the call that raises it: what was assigned before stays. *)
Definition process_city (max_pages : Z) (city : City) (w : CityWorld) (r : Run)
  : Run :=
  let name := city_name city in
  let scraped' := scraped r ++ [city] in
  let failed total e :=
    {| total_listings := total;
       city_stats := <[name := error e]> (city_stats r);
       scraped := scraped' |} in
  match scrap_fault w with
  | Some e => failed (total_listings r) e
  | None =>
      let city_data := scrap (site w) max_pages in
      match city_data with
      | [] =>
          {| total_listings := total_listings r;
             city_stats := <[name := no_data]> (city_stats r);
             scraped := scraped' |}
      | _ :: _ =>
          let count := Z.of_nat (length city_data) in
          let total := total_listings r + count in
          match json_upload_fault w with
          | Some e => failed total e
          | None =>
              match csv_upload_fault w with
              | Some e => failed total e
              | None =>
                  {| total_listings := total;
                     city_stats := <[name := success count]> (city_stats r);
                     scraped := scraped' |}
              end
          end
      end
  end.

(** The world of a run: what the outside does during the [i]-th iteration. *)
Definition World : Type := nat -> CityWorld.

(** [for city in cities], from iteration [i] on. *)
Fixpoint process_cities (max_pages : Z) (world : World) (i : nat)
    (cs : list City) (r : Run) : Run :=
  match cs with
  | [] => r
  | city :: rest =>
      process_cities max_pages world (S i) rest
        (process_city max_pages city (world i) r)
  end.

(** Lines 95-96. *)
Definition start : Run :=
  {| total_listings := 0; city_stats := ∅; scraped := [] |}.

(** The run over a list of cities; [run max_pages world cities] is the
    program's. Its [total_listings] and [city_stats] are what lines 174-175
    store in [run_metadata]. *)
Definition run (max_pages : Z) (world : World) (cs : list City) : Run :=
  process_cities max_pages world 0 cs start.

(** The sum of ["listings_count"] over the entries of [city_stats]; an entry
    without the key adds nothing. *)
Definition sum_listings_count (stats : gmap string CityStat) : Z :=
  map_fold (fun _ entry acc => acc + default 0 (listings_count entry)) 0 stats.

End Orchestrator.

Import Orchestrator.

(* ===================================================================== *)
(** * Definitions used in the statements *)
(* ===================================================================== *)

(** ** The normalizers as the specification words them *)

(** The unit tables: suffix and multiplier. *)
Definition price_units : list (string * Z) :=
  [("Crore", 10000000); ("Lakh", 100000); ("Million", 1000000);
   ("Arab", 1000000000); ("Thousand", 1000)]%string.

Definition size_units : list (string * Z) :=
  [("Marla", 225); ("Kanal", 4500); ("Sq. Yd.", 9); ("Sq. Ft.", 1)]%string.

(** A multiplier applied to a parsed number; multiplying by 1 leaves it. *)
Definition scale (x : spec_float) (mult : Z) : spec_float :=
  if decide (mult = 1) then x else float_mul x (float_of_int mult).

(** A decimal number read from a string; [None] when the string is not one
    (a NaN is not a number). *)
Definition parse_number (s : str) : option spec_float :=
  match float s with
  | Ok x => if is_nan x then None else Some x
  | Raise _ => None
  end.

(** The integer nearest to a number; an infinity has none. *)
Definition nearest_integer (x : spec_float) : option Z :=
  match round x with
  | Ok z => Some z
  | Raise _ => None
  end.

(** Follows the specification: strip the whitespace; empty gives 0; find the
    unit the string ends with, in table order; parse the numeric prefix,
    commas removed; multiply and round to the nearest integer; a prefix that
    does not parse gives 0. [None] stands for a value without a nearest
    integer, on which the specification is silent. *)
Definition normalize (units : list (string * Z)) (raw : str) : option Z :=
  let s := strip raw in
  if str_eqb s [] then Some 0
  else
    let '(number, mult) :=
      match find (λ u, endswith s (chars u.1)) units with
      | Some (suffix, mult) => (strip (drop_last (String.length suffix) s), mult)
      | None => (s, 1)
      end in
    match parse_number (remove_commas number) with
    | Some x => nearest_integer (scale x mult)
    | None => Some 0
    end.

Definition normalizePrice : str → option Z := normalize price_units.
Definition normalizeSize : str → option Z := normalize size_units.

(** What the code does where [normalize] is [None]: [round] raises
    [OverflowError], which the handlers do not catch. *)
Definition returned (r : option Z) : Result Z :=
  match r with
  | Some z => Ok z
  | None => Raise OverflowError
  end.

(** [z] is an integer nearest to the finite number [x]: with [x = n / 2^k],
    [|z - x| <= 1/2]. *)
Definition nearest (x : spec_float) (z : Z) : Prop :=
  match x with
  | S754_zero _ => z = 0
  | S754_finite s m e =>
      let k := Z.max 0 (- e) in
      let n := (if s then - Zpos m else Zpos m) * 2 ^ (e + k) in
      2 * Z.abs (z * 2 ^ k - n) ≤ 2 ^ k
  | _ => False
  end.

(** The ASCII character that stands for [c] in the ASCII form of a [str]
    with a character above 127. *)
Definition ascii_of (c : N) : N :=
  if (c <? 127)%N then c
  else if isspace c then ch " "
  else match todecimal c with
       | Some d => (ch "0" + d)%N
       | None => ch "?"
       end.

(** The characters of what [float] accepts: the ASCII alphabet of its
    literals, and the decimal digits of the other scripts. *)
Definition float_char (c : N) : bool :=
  if (c <? 127)%N then isdigit c || bool_decide (c ∈ chars ".+-_eEiInNfFtTyYaA")
  else negb (isspace c) && match todecimal c with Some _ => true | None => false end.


(** ** Listing nodes *)

(** The tag the size is read from: the first selector, else the one under
    the location's parent. *)
Definition size_tag_of (house : House) : option Tag :=
  match sel_size house with
  | Some t => Some t
  | None => sel_parent_size house
  end.

(** ** Pages, as the pagination loop sees them *)

(** The listings one page adds to the accumulator. *)
Definition page_listings (site : Site) (page_number : Z) : list Listing :=
  match site page_number with
  | Html main_list tiles => process_houses [] (house_list_of main_list tiles)
  | _ => []
  end.

(** A page that counts towards the breaker. *)
Definition is_failure (site : Site) (page_number : Z) : bool :=
  match site page_number with
  | Html _ _ => false
  | _ => true
  end.

(** A page without listing nodes under either selector. *)
Definition is_empty_page (site : Site) (page_number : Z) : bool :=
  match site page_number with
  | Html main_list tiles =>
      match house_list_of main_list tiles with [] => true | _ => false end
  | _ => false
  end.

(** A page with listing nodes. *)
Definition is_parsed_page (site : Site) (page_number : Z) : bool :=
  match site page_number with
  | Html main_list tiles =>
      match house_list_of main_list tiles with [] => false | _ => true end
  | _ => false
  end.

(** A page that ends the pagination whatever the state. *)
Definition stops (site : Site) (p : Z) : Prop :=
  is_empty_page site p = true ∨
  (is_parsed_page site p = true ∧ page_listings site p = []).


(** ** The per-city iteration *)

(** The message of the exception that leaves the [try] body of a city's
    iteration, if one does. *)
Definition raises (max_pages : Z) (w : CityWorld) : option string :=
  match scrap_fault w with
  | Some e => Some e
  | None =>
      match scrap (site w) max_pages with
      | [] => None
      | _ :: _ =>
          match json_upload_fault w with
          | Some e => Some e
          | None => csv_upload_fault w
          end
      end
  end.


(** ** Fixtures: listing nodes and sites used in the examples *)

Definition tag (s : string) : Tag := {| tag_text := chars s |}.

(** A listing node with every field. *)
Definition full_house : House :=
  {| sel_baths := Some (tag "2");
     sel_beds := Some (tag " 3 ");
     sel_location := Some (tag "DHA Phase 5, Lahore");
     sel_price := Some (tag "1.5 Crore");
     sel_size := Some (tag "10 Marla");
     sel_parent_size := None;
     sel_property_type := Some (tag "House");
     sel_date_added := Some (tag "2 days ago");
     sel_reference := Some (tag "ID-77");
     clock := chars "2024-05-01T00:00:00" |}.

(** A listing node with nothing but a location. *)
Definition unpriced_house : House :=
  {| sel_baths := None;
     sel_beds := None;
     sel_location := Some (tag "Gulberg, Lahore");
     sel_price := None;
     sel_size := None;
     sel_parent_size := None;
     sel_property_type := None;
     sel_date_added := None;
     sel_reference := None;
     clock := chars "2024-05-01T00:00:01" |}.

(** Every page fails with a transport error. *)
Definition site_down : Site := λ _, RequestFailed "timeout".

(** Page 1 has twenty listings, the other pages have none. *)
Definition site_one_page : Site := λ p,
  if decide (p = 1) then Html (replicate 20 full_house) [] else Html [] [].

(** Page 1 has a listing, found by the second selector; page 2 has nodes
    without a price; later pages have listings again. *)
Definition site_unpriced_second : Site := λ p,
  if decide (p = 2) then Html [unpriced_house; unpriced_house] []
  else Html [] [full_house].

(** Two pages of listings, then three failures, then listings again. *)
Definition site_outage : Site := λ p,
  if decide (p ≤ 2) then Html [full_house] []
  else if decide (p = 3) then RequestFailed "503"
  else if decide (p = 4) then NotHtml
  else if decide (p = 5) then Crashed "parser"
  else Html [full_house] [].

(** A listing node with a price, and neither a location nor a size under
    the first size selector. *)
Definition house_without_location : House :=
  {| sel_baths := Some (tag "2");
     sel_beds := Some (tag "3");
     sel_location := None;
     sel_price := Some (tag "1.5 Crore");
     sel_size := None;
     sel_parent_size := None;
     sel_property_type := None;
     sel_date_added := None;
     sel_reference := None;
     clock := chars "2024-05-01T00:00:02" |}.

(** Every city has a page of twenty listings; the JSON upload of the second
    city (iteration 1) is refused. *)
Definition world_upload_refused : World := λ i,
  {| site := site_one_page;
     scrap_fault := None;
     json_upload_fault := if decide (i = 1%nat) then Some "upload refused" else None;
     csv_upload_fault := None |}.

(** ** Definitions used in the further properties *)

(** A value that is a Python [int]; a [str] without whitespace around. *)
Definition is_int (v : value) : Prop := ∃ z, v = VInt z.
Definition is_stripped_str (v : value) : Prop := ∃ s, v = VStr s ∧ strip s = s.

(** The shape of a record of [house_info]: the price, the bedrooms and the
    baths are integers, the size is an integer or the float [0.0], the
    other fields are strings, the location and the three additional ones
    without whitespace around them. *)
Definition record_ok (l : Listing) : Prop :=
  is_int (price l) ∧ is_int (bedrooms l) ∧ is_int (baths l) ∧
  (is_int (size l) ∨ size l = VFloat (S754_zero false)) ∧
  is_stripped_str (location l) ∧ is_stripped_str (property_type l) ∧
  is_stripped_str (date_added l) ∧ is_stripped_str (original_listing_id l).

(** The text of a tag: an optional minus sign and digits, with whitespace
    around. *)
Definition padded_integer (pad1 : str) (neg : bool) (ds pad2 : str) : Tag :=
  {| tag_text := pad1 ++ (if neg then [ch "-"] else []) ++ ds ++ pad2 |}.

(** A listing node with a price and a location only. *)
Definition bare_house : House :=
  {| sel_baths := None;
     sel_beds := None;
     sel_location := Some (tag "Clifton, Karachi");
     sel_price := Some (tag "50 Lakh");
     sel_size := None;
     sel_parent_size := None;
     sel_property_type := None;
     sel_date_added := None;
     sel_reference := None;
     clock := chars "2024-05-01T00:00:03" |}.

(** A listing node is dropped for one of four reasons. *)
Definition dropped (house : House) : Prop :=
  sel_price house = None ∨
  (sel_size house = None ∧ sel_location house = None) ∨
  (∃ p, sel_price house = Some p ∧
        convert_price (strip (tag_text p)) = Raise OverflowError) ∨
  (∃ t, size_tag_of house = Some t ∧
        convert_size (strip (tag_text t)) = Raise OverflowError).

(** The binary64 number that is the integer [n] ([0 < n < 2^53]) with sign
    [s]: the mantissa is [n] shifted to 53 bits. *)
Definition float_of_whole (s : bool) (n : Z) : spec_float :=
  S754_finite s (Z.to_pos (n * 2 ^ (prec - Zdigits2 n))) (Zdigits2 n - prec).

(** A number written with digits and thousands separators. *)
Definition is_whole_number (num : str) : bool :=
  forallb (λ c, isdigit c || (c =? ch ",")%N) num
  && negb (str_eqb (remove_commas num) []).

(** Pages 2, 3, 5 and 6 fail; the other pages have a listing. *)
Definition site_flaky : Site := λ p,
  if decide (p = 2 ∨ p = 3 ∨ p = 5 ∨ p = 6) then RequestFailed "reset"
  else Html [full_house] [].

(** The number of listings an iteration adds to [total_listings]. *)
Definition listed (max_pages : Z) (w : CityWorld) : Z :=
  match scrap_fault w with
  | Some _ => 0
  | None => Z.of_nat (length (scrap (site w) max_pages))
  end.

(** The entry an iteration stores in [city_stats]. *)
Definition entry_of (max_pages : Z) (w : CityWorld) : CityStat :=
  match raises max_pages w with
  | Some e => error e
  | None =>
      match scrap (site w) max_pages with
      | [] => no_data
      | l => success (Z.of_nat (length l))
      end
  end.

(** A world without any failure: every city has one page of twenty
    listings. *)
Definition world_fine : World := λ _,
  {| site := site_one_page;
     scrap_fault := None;
     json_upload_fault := None;
     csv_upload_fault := None |}.

(** The listings an iteration counts in [total_listings] and then fails to
    record in [city_stats]. *)
Definition unrecorded (max_pages : Z) (w : CityWorld) : Z :=
  match raises max_pages w with
  | Some _ => listed max_pages w
  | None => 0
  end.


(* ===================================================================== *)
(** * Properties of the builtins: strings, [float], [round] *)
(* ===================================================================== *)

(** ** Characters

    A property of the code points below 256 is checked on each of them. *)

Lemma ascii_cases (P : N → Prop) :
  (∀ a, P (ch a)) → ∀ c, (c < 256)%N → P c.
Proof. intros H c Hc. rewrite <- (N_ascii_embedding c Hc). apply H. Qed.

Ltac by_ascii_cases c Hc :=
  pattern c; apply ascii_cases;
  [intros [[] [] [] [] [] [] [] []]; vm_compute; done|exact Hc].

Lemma chars_bound s c : c ∈ chars s → (c < 256)%N.
Proof.
  unfold chars. intros (a & -> & _)%list_elem_of_fmap. apply N_ascii_bounded.
Qed.

Lemma isdigit_bound c : isdigit c = true → (c < 256)%N.
Proof. unfold isdigit. intros [_ H%N.leb_le]%andb_prop. lia. Qed.

Lemma c_isspace_bound c : c_isspace c = true → (c < 256)%N.
Proof.
  unfold c_isspace. intros [[_ H%N.leb_le]%andb_prop|H%N.eqb_eq]%orb_prop; lia.
Qed.

Lemma lower_bound c : (lower c < 256)%N → (c < 256)%N.
Proof.
  unfold lower. destruct (_ && _) eqn:E; [|done].
  apply andb_prop in E as [_ E%N.leb_le]. lia.
Qed.

Lemma lower_float_char c :
  bool_decide (lower c ∈ chars "infinityna") = true → float_char c = true.
Proof.
  intros H. assert (Hc : (c < 256)%N).
  { apply lower_bound. apply bool_decide_eq_true in H. by eapply chars_bound. }
  revert H. by_ascii_cases c Hc.
Qed.

Lemma lower_e_float_char c :
  (lower c =? ch "e")%N = true → float_char c = true.
Proof.
  intros H. assert (Hc : (c < 256)%N).
  { apply lower_bound. apply N.eqb_eq in H. rewrite H. done. }
  revert H. by_ascii_cases c Hc.
Qed.

(** ** List lemmas for [strip_class], [startswith], [span] *)

Lemma drop_while_app_all p a l :
  Forall (λ c, p c = true) a → drop_while p (a ++ l) = drop_while p l.
Proof. induction 1 as [|c a Hc _ IH]; simpl; [done|]. by rewrite Hc. Qed.

Lemma drop_while_head p c l : p c = false → drop_while p (c :: l) = c :: l.
Proof. intros H. simpl. by rewrite H. Qed.

Lemma drop_while_decompose p s :
  ∃ a, s = a ++ drop_while p s ∧ Forall (λ c, p c = true) a.
Proof.
  induction s as [|c s (a & Hs & Ha)]; simpl.
  - by exists [].
  - destruct (p c) eqn:Hc.
    + exists (c :: a). split; [by rewrite Hs at 1|by constructor].
    + by exists [].
Qed.

Lemma strip_class_decompose p s :
  ∃ a b, s = a ++ strip_class p s ++ b ∧
         Forall (λ c, p c = true) a ∧ Forall (λ c, p c = true) b.
Proof.
  unfold strip_class.
  destruct (drop_while_decompose p s) as (a & Hs & Ha).
  destruct (drop_while_decompose p (rev (drop_while p s))) as (b & Hr & Hb).
  exists a, (rev b). split_and!; [|done|by apply Forall_rev].
  rewrite Hs at 1. f_equal.
  rewrite <- (rev_involutive (drop_while p s)), Hr at 1.
  by rewrite rev_app_distr.
Qed.

Lemma strip_class_padded p a l b :
  Forall (λ c, p c = true) a → Forall (λ c, p c = true) b →
  Forall (λ c, p c = false) l →
  strip_class p (a ++ l ++ b) = l.
Proof.
  intros Ha Hb Hl. unfold strip_class. rewrite drop_while_app_all by done.
  destruct l as [|c l]; simpl.
  - assert (drop_while p b = []) as ->.
    { clear -Hb. induction Hb as [|c b Hc _ IH]; simpl; [done|]. by rewrite Hc. }
    done.
  - apply Forall_cons in Hl as Hcl. destruct Hcl as [Hc Hl'].
    rewrite Hc. change (c :: l ++ b) with ((c :: l) ++ b).
    rewrite rev_app_distr, drop_while_app_all by (by apply Forall_rev).
    apply Forall_rev in Hl. destruct (rev (c :: l)) as [|d r] eqn:E.
    + apply (f_equal (@length _)) in E. rewrite length_rev in E. done.
    + apply Forall_cons in Hl as [Hd _]. rewrite drop_while_head by done.
      by rewrite <- E, rev_involutive.
Qed.

Lemma strip_class_clean p l :
  Forall (λ c, p c = false) l → strip_class p l = l.
Proof.
  intros Hl. rewrite <- (app_nil_r l) at 1.
  by apply (strip_class_padded p [] l []).
Qed.

Lemma startswith_app s x : startswith s x = true → ∃ rest, s = x ++ rest.
Proof.
  revert s. induction x as [|c x IH]; intros s; simpl.
  - by exists s.
  - destruct s as [|d s]; [done|]. intros [Hc Hx]%andb_prop.
    apply N.eqb_eq in Hc as ->. destruct (IH _ Hx) as [rest ->]. by exists rest.
Qed.

Lemma startswith_app_true x rest : startswith (x ++ rest) x = true.
Proof.
  induction x as [|c x IH]; simpl; [by destruct rest|]. by rewrite N.eqb_refl.
Qed.

Lemma endswith_app s x : endswith s x = true ↔ ∃ front, s = front ++ x.
Proof.
  unfold endswith. split.
  - intros [rest H]%startswith_app. exists (rev rest).
    by rewrite <- (rev_involutive s), H, rev_app_distr, rev_involutive.
  - intros [front ->]. rewrite rev_app_distr. apply startswith_app_true.
Qed.

Lemma drop_last_app front x : drop_last (length x) (front ++ x) = front.
Proof.
  unfold drop_last. rewrite length_app.
  replace (length front + length x - length x)%nat with (length front) by lia.
  by rewrite take_app_length.
Qed.

Lemma span_spec p s a b :
  span p s = (a, b) → s = a ++ b ∧ Forall (λ c, p c = true) a.
Proof.
  revert a b. induction s as [|c s IH]; intros a b; simpl.
  - by intros [= <- <-].
  - destruct (p c) eqn:Hc.
    + destruct (span p s) as [a' b'] eqn:E. intros [= <- <-].
      destruct (IH _ _ eq_refl) as [-> Ha]. split; [done|by constructor].
    + by intros [= <- <-].
Qed.

(** ** The alphabet of what [float] accepts *)

Lemma float_char_underscore c : is_underscore c = true → float_char c = true.
Proof. unfold is_underscore. intros ->%N.eqb_eq. done. Qed.

Lemma float_char_digit c : isdigit c = true → float_char c = true.
Proof.
  intros H. pose proof (isdigit_bound c H) as Hc. revert H. by_ascii_cases c Hc.
Qed.

Lemma drop_underscores_chars prev l l' :
  drop_underscores prev l = Some l' →
  forallb float_char l' = true → forallb float_char l = true.
Proof.
  revert prev l'. induction l as [|c l IH]; intros prev l'; simpl; [done|].
  destruct (is_underscore c) eqn:Hc.
  - destruct (from_option isdigit false prev); [|done].
    intros H Hl'. rewrite (IH _ _ H Hl'), float_char_underscore; done.
  - destruct (from_option is_underscore false prev && negb (isdigit c)); [done|].
    destruct (drop_underscores (Some c) l) as [r|] eqn:E; [|done].
    simpl. intros [= <-]. simpl. intros [-> Hr]%andb_prop. simpl. by eapply IH.
Qed.

Lemma drop_underscores_nil prev l :
  drop_underscores prev l = Some [] → l = [] ∨ ∃ c l', l = c :: l' ∧ is_underscore c = true.
Proof.
  destruct l as [|c l]; simpl; [by left|].
  destruct (is_underscore c) eqn:Hc; [by right; eauto|].
  destruct (_ && _); [done|]. by destruct (drop_underscores (Some c) l).
Qed.

Lemma sign_spec s neg body :
  sign s = (neg, body) →
  s = body ∨ ∃ c, s = c :: body ∧ float_char c = true.
Proof.
  unfold sign. destruct s as [|c s]; [intros [= <- <-]; by left|].
  destruct ((c =? ch "-")%N) eqn:E1.
  { apply N.eqb_eq in E1 as ->. intros [= <- <-]. right. by eexists. }
  destruct ((c =? ch "+")%N) eqn:E2.
  { apply N.eqb_eq in E2 as ->. intros [= <- <-]. right. by eexists. }
  intros [= <- <-]. by left.
Qed.

Lemma forallb_digits ds :
  Forall (λ c, isdigit c = true) ds → forallb float_char ds = true.
Proof.
  induction 1 as [|c ds Hc _ IH]; simpl; [done|].
  by rewrite float_char_digit.
Qed.

Lemma str_eqb_eq a b : str_eqb a b = true ↔ a = b.
Proof. unfold str_eqb. apply bool_decide_eq_true. Qed.

Lemma decimal_literal_chars s m e :
  decimal_literal s = Some (m, e) → s ≠ [] ∧ forallb float_char s = true.
Proof.
  unfold decimal_literal.
  destruct (span isdigit s) as [ip s1] eqn:E1.
  apply span_spec in E1 as [-> Hip].
  destruct (match s1 with
            | [] => ([], s1)
            | c :: t => if (c =? ch ".")%N then span isdigit t else ([], s1)
            end) as [fp s2] eqn:E2.
  assert (Hs1 : ∃ dot, s1 = dot ++ fp ++ s2 ∧ forallb float_char (dot ++ fp) = true).
  { destruct s1 as [|c t]; [injection E2 as <- <-; by exists []|].
    destruct ((c =? ch ".")%N) eqn:Ec.
    - apply N.eqb_eq in Ec as ->. apply span_spec in E2 as [-> Hfp].
      exists [ch "."]. split; [done|]. simpl. by apply forallb_digits.
    - injection E2 as <- <-. by exists []. }
  destruct Hs1 as (dot & -> & Hdot).
  destruct (str_eqb (ip ++ fp) []) eqn:Hne; [done|].
  assert (Hnonempty : ip ++ dot ++ fp ++ s2 ≠ []).
  { intros H. apply app_eq_nil in H as [-> H]. apply app_eq_nil in H as [_ H].
    apply app_eq_nil in H as [-> _]. by vm_compute in Hne. }
  rewrite !forallb_app in *. rewrite (forallb_digits ip) by done.
  apply andb_prop in Hdot as [-> ->]. simpl.
  destruct s2 as [|c t]; [done|].
  destruct ((lower c =? ch "e")%N) eqn:Ee; [|done].
  destruct (sign t) as [eneg t1] eqn:Es.
  destruct (span isdigit t1) as [ed t2] eqn:E3.
  apply span_spec in E3 as [-> Hed].
  destruct (str_eqb ed [] || negb (str_eqb t2 [])) eqn:Hx; [done|].
  apply orb_false_elim in Hx as [_ Ht2]. apply negb_false_iff, str_eqb_eq in Ht2 as ->.
  intros _. split; [done|]. simpl.
  rewrite (lower_e_float_char c) by done.
  simpl. rewrite app_nil_r in Es.
  destruct (sign_spec _ _ _ Es) as [->|(sg & -> & Hsg)]; simpl.
  - by apply forallb_digits.
  - rewrite Hsg. by apply forallb_digits.
Qed.

Lemma forallb_lower_word body :
  forallb (λ c, bool_decide (c ∈ chars "infinityna")) (map lower body) = true →
  forallb float_char body = true.
Proof.
  induction body as [|c body IH]; simpl; [done|].
  intros [Hc Hb]%andb_prop. by rewrite lower_float_char, IH.
Qed.

Lemma float_literal_chars s x :
  float_literal s = Some x → s ≠ [] ∧ forallb float_char s = true.
Proof.
  unfold float_literal. destruct (sign s) as [neg body] eqn:Es.
  assert (Hbody : body ≠ [] ∧ forallb float_char body = true →
                  s ≠ [] ∧ forallb float_char s = true).
  { intros [Hne Hb]. destruct (sign_spec _ _ _ Es) as [->|(sg & -> & Hsg)]; [done|].
    split; [done|]. simpl. by rewrite Hsg. }
  destruct (str_eqb (map lower body) (chars "inf") ||
            str_eqb (map lower body) (chars "infinity")) eqn:Hinf.
  { intros _. apply Hbody. apply orb_prop in Hinf as [H|H];
      apply str_eqb_eq in H; (split; [by destruct body|]);
      apply forallb_lower_word; by rewrite H. }
  destruct (str_eqb (map lower body) (chars "nan")) eqn:Hnan.
  { intros _. apply Hbody. apply str_eqb_eq in Hnan.
    split; [by destruct body|]. apply forallb_lower_word. by rewrite Hnan. }
  destruct (decimal_literal body) as [[m e]|] eqn:Hd; [|done].
  intros _. apply Hbody. by eapply decimal_literal_chars.
Qed.

(** What the parser of [float] accepts, up to the whitespace around it, is
    a non-empty string over the alphabet. *)
Lemma float_of_ascii_chars a x :
  float_of_ascii a = Ok x →
  strip_class c_isspace a ≠ [] ∧
  forallb float_char (strip_class c_isspace a) = true.
Proof.
  unfold float_of_ascii.
  destruct (drop_underscores None (strip_class c_isspace a)) as [lit|] eqn:Hu; [|done].
  destruct (float_literal lit) as [y|] eqn:Hl; [|done]. intros _.
  destruct (float_literal_chars _ _ Hl) as [Hne Hall].
  split; [|by eapply drop_underscores_chars].
  intros Hnil. rewrite Hnil in Hu. simpl in Hu. by injection Hu as <-.
Qed.

Lemma c_isspace_isspace c : c_isspace c = true → isspace c = true.
Proof.
  intros H. pose proof (c_isspace_bound c H) as Hc. revert H. by_ascii_cases c Hc.
Qed.

(** A character of the alphabet is no whitespace and no comma. *)
Lemma float_char_props c :
  float_char c = true →
  isspace c = false ∧ c_isspace c = false ∧ (c =? ch ",")%N = false.
Proof.
  destruct (c <? 127)%N eqn:E.
  - apply N.ltb_lt in E. assert (Hc : (c < 256)%N) by lia. by_ascii_cases c Hc.
  - apply N.ltb_ge in E. unfold float_char. rewrite (proj2 (N.ltb_ge _ _) E).
    intros [Hsp _]%andb_prop. apply negb_true_iff in Hsp. split_and!; [done| |].
    + destruct (c_isspace c) eqn:Hcs; [|done].
      apply c_isspace_isspace in Hcs. congruence.
    + apply N.eqb_neq. intros ->. by vm_compute in E.
Qed.

Lemma float_char_not_space l :
  forallb float_char l = true →
  Forall (λ c, isspace c = false) l ∧ Forall (λ c, c_isspace c = false) l ∧
  remove_commas l = l.
Proof.
  induction l as [|c l IH]; simpl; [done|].
  intros [Hcc Hl]%andb_prop. destruct (float_char_props c Hcc) as (H1 & H2 & H3).
  destruct (IH Hl) as (I1 & I2 & I3). rewrite H3. simpl.
  split_and!; [by constructor|by constructor|by f_equal].
Qed.

Lemma float_of_ascii_raises a e : float_of_ascii a = Raise e → e = ValueError.
Proof.
  unfold float_of_ascii. destruct (drop_underscores _ _); [|by intros [= <-]].
  destruct (float_literal _); [done|by intros [= <-]].
Qed.

Lemma float_raises s e : float s = Raise e → e = ValueError.
Proof. apply float_of_ascii_raises. Qed.

(** ** The ASCII form of a [str] *)

Lemma forallb_true_Forall {A} (f : A → bool) l :
  forallb f l = true ↔ Forall (λ x, f x = true) l.
Proof.
  induction l as [|x l IH]; simpl; [done|].
  by rewrite andb_true_iff, Forall_cons, IH.
Qed.

Lemma todecimal_lt c d : todecimal c = Some d → (d < 10)%N.
Proof.
  unfold todecimal.
  destruct (find _ decimal_zeros) as [zero|] eqn:E; [|done]. intros [= <-].
  apply find_some in E as [_ [H1%N.leb_le H2%N.ltb_lt]%andb_prop]. lia.
Qed.

Lemma ascii_digit d : (d < 10)%N → isdigit (ch "0" + d) = true.
Proof.
  intros Hd. change (ch "0") with 48%N. unfold isdigit.
  apply andb_true_intro. split; [apply N.leb_le|apply N.leb_le]; lia.
Qed.

Lemma isdigit_props c :
  isdigit c = true →
  float_char c = true ∧ isspace c = false ∧ c_isspace c = false ∧
  is_underscore c = false ∧ (c =? ch "-")%N = false ∧ (c =? ch "+")%N = false ∧
  (c <? 127)%N = true.
Proof.
  intros H. pose proof (isdigit_bound c H) as Hc. revert H. by_ascii_cases c Hc.
Qed.

(** [transform] writes [ascii_of c] for [c], and stops at a ['?'] that
    stands for a character that is neither whitespace nor a digit. *)
Lemma ascii_of_cases c :
  ((c <? 127)%N = true ∧ ascii_of c = c) ∨
  ((c <? 127)%N = false ∧ isspace c = true ∧ ascii_of c = ch " ") ∨
  ((c <? 127)%N = false ∧ isspace c = false ∧
   ∃ d, todecimal c = Some d ∧ ascii_of c = (ch "0" + d)%N) ∨
  ((c <? 127)%N = false ∧ isspace c = false ∧ todecimal c = None ∧
   ascii_of c = ch "?").
Proof.
  unfold ascii_of. destruct (c <? 127)%N; [by left|]. right.
  destruct (isspace c); [by left|]. right.
  destruct (todecimal c) as [d|]; [left|right]; eauto.
Qed.

Lemma ascii_of_space c : c_isspace (ascii_of c) = true → isspace c = true.
Proof.
  destruct (ascii_of_cases c) as [[_ ->]|[(_ & H & _)|[(_ & _ & d & Hd & ->)|(_ & _ & _ & ->)]]].
  - apply c_isspace_isspace.
  - done.
  - intros H. destruct (isdigit_props _ (ascii_digit d (todecimal_lt _ _ Hd)))
      as (_ & _ & H' & _). congruence.
  - intros H. by vm_compute in H.
Qed.

Lemma ascii_of_float_char c :
  float_char (ascii_of c) = true → float_char c = true.
Proof.
  destruct (ascii_of_cases c) as [[_ ->]|[(_ & H & ->)|[(E & Hs & d & Hd & ->)|(_ & _ & _ & ->)]]].
  - done.
  - intros Hx. by vm_compute in Hx.
  - intros _. unfold float_char. by rewrite E, Hs, Hd.
  - intros Hx. by vm_compute in Hx.
Qed.

(** A character that the parser of [float] can meet: whitespace or a
    character of the alphabet. *)
Lemma parsed_char_ascii c :
  (c <? 128)%N = true → c_isspace c || float_char c = true → ascii_of c = c.
Proof.
  intros H. assert (Hc : (c < 256)%N) by (apply N.ltb_lt in H; lia).
  revert H. by_ascii_cases c Hc.
Qed.

Lemma transform_parsed s :
  Forall (λ x, c_isspace x || float_char x = true) (transform s) →
  transform s = ascii_of <$> s.
Proof.
  induction s as [|c s IH]; [done|]. cbn [transform fmap list_fmap].
  unfold ascii_of at 1. destruct (c <? 127)%N.
  { intros [_ H]%Forall_cons. by rewrite IH. }
  destruct (isspace c).
  { intros [_ H]%Forall_cons. by rewrite IH. }
  destruct (todecimal c) as [d|].
  { intros [_ H]%Forall_cons. by rewrite IH. }
  intros [H _]%Forall_cons. by vm_compute in H.
Qed.

Lemma to_ascii_parsed s :
  Forall (λ x, c_isspace x || float_char x = true) (to_ascii s) →
  to_ascii s = ascii_of <$> s.
Proof.
  unfold to_ascii. destruct (forallb _ s) eqn:E; [|apply transform_parsed].
  intros H. induction s as [|c s IH]; [done|].
  apply andb_prop in E as [Ec E]. apply Forall_cons in H as [Hc H].
  rewrite fmap_cons, <- IH by done. by rewrite parsed_char_ascii.
Qed.

Lemma transform_fmap s :
  Forall (λ c, c_isspace (ascii_of c) || float_char (ascii_of c) = true) s →
  transform s = ascii_of <$> s.
Proof.
  intros H. apply transform_parsed. induction H as [|c s Hc _ IH]; [done|].
  cbn [transform]. revert Hc. unfold ascii_of.
  destruct (c <? 127)%N; [by constructor|].
  destruct (isspace c); [by constructor|].
  destruct (todecimal c); [by constructor|]. intros H. by vm_compute in H.
Qed.

Lemma to_ascii_fmap s :
  Forall (λ c, c_isspace (ascii_of c) || float_char (ascii_of c) = true) s →
  to_ascii s = ascii_of <$> s.
Proof.
  intros H. unfold to_ascii. destruct (forallb _ s) eqn:E; [|by apply transform_fmap].
  induction H as [|c s Hc _ IH]; [done|].
  apply andb_prop in E as [Ec E]. rewrite fmap_cons, <- IH by done. f_equal.
  assert (Hb : (c < 256)%N) by (apply N.ltb_lt in Ec; lia).
  revert Ec Hc. by_ascii_cases c Hb.
Qed.

(** A [str] of code points below 128 is its own ASCII form. *)
Lemma to_ascii_ascii s : Forall (λ c, (c <? 128)%N = true) s → to_ascii s = s.
Proof.
  intros H. unfold to_ascii.
  assert (forallb (λ c, c <? 128)%N s = true) as ->; [|done].
  induction H as [|c s Hc _ IH]; [done|]. simpl. by rewrite Hc.
Qed.

(** The literal that [float s] reads is [strip s], and it has no comma, no
    space, and no letter outside the alphabet. *)
Lemma float_ok_strip s x :
  float s = Ok x →
  s ≠ [] ∧ strip s ≠ [] ∧ forallb float_char (strip s) = true ∧
  remove_commas (strip s) = strip s ∧ float (strip s) = Ok x.
Proof.
  unfold float at 1. intros Hf.
  destruct (float_of_ascii_chars _ _ Hf) as [Hne Hall].
  destruct (strip_class_decompose c_isspace (to_ascii s)) as (a & b & Ha & Hpa & Hpb).
  set (lit := strip_class c_isspace (to_ascii s)) in *.
  assert (Hparsed : Forall (λ x, c_isspace x || float_char x = true) (to_ascii s)).
  { rewrite Ha. rewrite !Forall_app. split_and!.
    - eapply Forall_impl; [exact Hpa|]. by intros c ->.
    - apply forallb_true_Forall in Hall. eapply Forall_impl; [exact Hall|].
      intros c ->. apply orb_true_r.
    - eapply Forall_impl; [exact Hpb|]. by intros c ->. }
  pose proof (to_ascii_parsed s Hparsed) as Hmap.
  rewrite Hmap in Ha.
  apply fmap_app_inv in Ha as (sa & s' & -> & Ha & ->).
  symmetry in Ha. apply fmap_app_inv in Ha as (sl & sb & Hlit & -> & ->).
  assert (Hsa : Forall (λ c, isspace c = true) sa).
  { apply Forall_fmap in Hpa. eapply Forall_impl; [exact Hpa|].
    intros c. apply ascii_of_space. }
  assert (Hsb : Forall (λ c, isspace c = true) sb).
  { apply Forall_fmap in Hpb. eapply Forall_impl; [exact Hpb|].
    intros c. apply ascii_of_space. }
  assert (Hlit_sl : Forall (λ c, float_char (ascii_of c) = true) sl).
  { rewrite Hlit in Hall. by apply forallb_true_Forall, Forall_fmap in Hall. }
  assert (Hsl : forallb float_char sl = true).
  { apply forallb_true_Forall. eapply Forall_impl; [exact Hlit_sl|].
    intros c. apply ascii_of_float_char. }
  destruct (float_char_not_space _ Hsl) as (Hsp & _ & Hcomma).
  assert (Hstrip : strip (sa ++ sl ++ sb) = sl).
  { unfold strip. by apply strip_class_padded. }
  assert (Hsl_ne : sl ≠ []).
  { intros ->. by rewrite Hlit in Hne. }
  rewrite Hstrip. split_and!; try done.
  - intros E. apply app_eq_nil in E as [_ E]. by apply app_eq_nil in E as [E _].
  - unfold float. rewrite to_ascii_fmap.
    + rewrite <- Hlit. unfold float_of_ascii in *. fold lit in Hf.
      rewrite strip_class_clean; [done|].
      by destruct (float_char_not_space _ Hall) as (_ & H & _).
    + eapply Forall_impl; [exact Hlit_sl|]. intros c ->. apply orb_true_r.
Qed.

Lemma endswith_chars l suffix :
  forallb float_char l = true → forallb float_char suffix = false →
  endswith l suffix = false.
Proof.
  intros Hl Hs. destruct (endswith l suffix) eqn:E; [|done].
  apply endswith_app in E as [front ->]. rewrite forallb_app in Hl.
  apply andb_prop in Hl as [_ Hl]. congruence.
Qed.

(** ** Rounding never yields a NaN *)

Lemma shr_1_nonneg mrs : 0 ≤ shr_m mrs → 0 ≤ shr_m (shr_1 mrs).
Proof. destruct mrs as [[|[p|p|]|p] r s]; simpl; lia. Qed.

Lemma iter_shr_1_nonneg p mrs :
  0 ≤ shr_m mrs → 0 ≤ shr_m (SpecFloat.iter_pos shr_1 p mrs).
Proof.
  revert mrs. induction p as [p IH|p IH|]; intros mrs H; simpl.
  - apply IH, IH. by apply shr_1_nonneg.
  - by apply IH, IH.
  - by apply shr_1_nonneg.
Qed.

Lemma shr_fexp_nonneg m e l :
  0 ≤ m → 0 ≤ shr_m (shr_fexp prec emax m e l).1.
Proof.
  intros Hm. unfold shr_fexp, shr.
  assert (H0 : 0 ≤ shr_m (shr_record_of_loc m l)) by (by destruct l as [|[]]).
  destruct (_ - e); simpl; [done|by apply iter_shr_1_nonneg|done].
Qed.

Lemma binary_round_aux_not_nan s m e l :
  0 ≤ m → is_nan (binary_round_aux prec emax s m e l) = false.
Proof.
  intros Hm. unfold binary_round_aux.
  pose proof (shr_fexp_nonneg m e l Hm) as H1.
  destruct (shr_fexp prec emax m e l) as [mrs' e'] eqn:E1. simpl in H1.
  assert (H2 : 0 ≤ round_nearest_even (shr_m mrs') (loc_of_shr_record mrs')).
  { unfold round_nearest_even. destruct (loc_of_shr_record mrs') as [|[]];
      try lia. destruct (Z.even _); lia. }
  pose proof (shr_fexp_nonneg _ e' loc_Exact H2) as H3.
  destruct (shr_fexp prec emax _ e' loc_Exact) as [mrs'' e''] eqn:E2. simpl in H3.
  destruct (shr_m mrs''); [done| |lia]. by destruct (_ <=? _).
Qed.

Lemma float_mul_not_nan x s m e :
  is_nan x = false → is_nan (float_mul x (S754_finite s m e)) = false.
Proof.
  destruct x; simpl; try done. intros _. by apply binary_round_aux_not_nan.
Qed.

Lemma round_handled y :
  is_nan y = false → except_value_type (round y) 0 = returned (nearest_integer y).
Proof. by destruct y. Qed.

Lemma scaled_branch a mult :
  mult ≠ 1 → (∃ m e, float_of_int mult = S754_finite false m e) →
  except_value_type
    (x ← float a; round (float_mul x (float_of_int mult))) 0 =
  returned match parse_number a with
           | Some x => nearest_integer (scale x mult)
           | None => Some 0
           end.
Proof.
  intros Hne (m & e & Hc). unfold parse_number.
  destruct (float a) as [x|ex] eqn:Hf; cbn.
  - destruct (is_nan x) eqn:Hx.
    + by destruct x.
    + unfold scale. rewrite decide_False by done.
      apply round_handled. rewrite Hc. by apply float_mul_not_nan.
  - by rewrite (float_raises _ _ Hf).
Qed.

Lemma plain_branch a :
  except_value_type (x ← float a; round x) 0 =
  returned match parse_number a with
           | Some x => nearest_integer (scale x 1)
           | None => Some 0
           end.
Proof.
  unfold parse_number.
  destruct (float a) as [x|ex] eqn:Hf; cbn.
  - destruct (is_nan x) eqn:Hx; [by destruct x|]. unfold scale.
    rewrite decide_True by done. by apply round_handled.
  - by rewrite (float_raises _ _ Hf).
Qed.

Lemma strip_nil_inv s : strip s = [] → s = [] ∨ str_eqb s [] = false.
Proof. destruct s; [by left|by right]. Qed.

(** The code computes the table-driven normalizer. *)
Lemma convert_price_normalize raw :
  convert_price raw = returned (normalizePrice raw).
Proof.
  unfold convert_price, normalizePrice, normalize.
  destruct (str_eqb raw []) eqn:Hraw.
  { apply str_eqb_eq in Hraw as ->. done. }
  destruct (str_eqb (strip raw) []) eqn:Hs.
  { apply str_eqb_eq in Hs as ->. done. }
  cbn [find price_units fst].
  repeat (case_match; [cbn [String.length]; apply scaled_branch;
                        [done|by vm_compute; eauto]|]).
  apply plain_branch.
Qed.

Lemma convert_size_normalize raw :
  convert_size raw = returned (normalizeSize raw).
Proof.
  unfold convert_size, normalizeSize, normalize.
  destruct (str_eqb raw []) eqn:Hraw.
  { apply str_eqb_eq in Hraw as ->. done. }
  destruct (str_eqb (strip raw) []) eqn:Hs.
  { apply str_eqb_eq in Hs as ->. done. }
  cbn [find size_units fst].
  do 3 (case_match; [cbn [String.length]; apply scaled_branch;
                      [done|by vm_compute; eauto]|]).
  case_match; [cbn [String.length]|]; apply plain_branch.
Qed.

Lemma not_nan_handled x :
  is_nan x = false → except_value_type (round x) 0 = round x.
Proof. by destruct x. Qed.

(** A string that [float] reads as a number, without a unit. *)
Lemma convert_price_plain s x :
  float s = Ok x → is_nan x = false → convert_price s = round x.
Proof.
  intros Hf Hx. destruct (float_ok_strip _ _ Hf) as (Hs & Hne & Hall & Hcomma & Hlit).
  unfold convert_price. destruct (str_eqb s []) eqn:E.
  { by apply str_eqb_eq in E. }
  rewrite !(endswith_chars (strip s)) by done.
  rewrite Hcomma, Hlit. cbn. by apply not_nan_handled.
Qed.

Lemma convert_size_plain s x :
  float s = Ok x → is_nan x = false → convert_size s = round x.
Proof.
  intros Hf Hx. destruct (float_ok_strip _ _ Hf) as (Hs & Hne & Hall & Hcomma & Hlit).
  unfold convert_size. destruct (str_eqb s []) eqn:E.
  { by apply str_eqb_eq in E. }
  rewrite !(endswith_chars (strip s)) by done.
  rewrite Hcomma, Hlit. cbn. by apply not_nan_handled.
Qed.

(** ** [round] gives a nearest integer *)

Lemma div_half_even_nearest m d :
  0 < d → 2 * Z.abs (div_half_even m d * d - m) ≤ d.
Proof.
  intros Hd. unfold div_half_even.
  pose proof (Z.div_mod m d ltac:(lia)) as Hm.
  pose proof (Z.mod_pos_bound m d Hd) as Hr.
  rewrite Z.mul_comm in Hm.
  generalize dependent (m mod d). generalize dependent (m / d).
  intros q r -> Hr.
  destruct (Z.compare_spec (2 * r) d) as [Hc|Hc|Hc].
  - destruct (Z.even q); lia.
  - lia.
  - lia.
Qed.

Lemma round_nearest x z : round x = Ok z → nearest x z.
Proof.
  destruct x as [s|s| |s m e]; try done.
  - by intros [= <-].
  - unfold round, nearest. intros [= <-]. cbv zeta. destruct e as [|p|p].
    + change (Z.max 0 (- 0)) with 0. change (2 ^ (0 + 0)) with 1.
      change (2 ^ 0) with 1. destruct s; lia.
    + replace (Z.max 0 (- Z.pos p)) with 0 by lia.
      rewrite Z.add_0_r. change (2 ^ 0) with 1. destruct s; lia.
    + replace (Z.max 0 (- Z.neg p)) with (Z.pos p) by lia.
      replace (Z.neg p + Z.pos p) with 0 by lia. change (2 ^ 0) with 1.
      pose proof (div_half_even_nearest (Z.pos m) (2 ^ Z.pos p) ltac:(lia)).
      destruct s; lia.
Qed.

(** ** A number followed by a unit *)

Lemma strip_class_ends p a l b c d :
  Forall (λ c, p c = true) a → Forall (λ c, p c = true) b →
  head l = Some c → p c = false → last l = Some d → p d = false →
  strip_class p (a ++ l ++ b) = l.
Proof.
  intros Ha Hb Hh Hc Hl Hd. unfold strip_class.
  rewrite drop_while_app_all by done.
  destruct l as [|c' l]; [done|]. injection Hh as ->.
  rewrite <- app_comm_cons, drop_while_head by done.
  rewrite app_comm_cons, rev_app_distr, drop_while_app_all by (by apply Forall_rev).
  destruct (rev (c :: l)) as [|d' r] eqn:E.
  { apply (f_equal (@length _)) in E. by rewrite length_rev in E. }
  assert (d' = d) as ->.
  { apply (f_equal (@rev N)) in E. rewrite rev_involutive in E.
    rewrite E in Hl. simpl in Hl. rewrite last_snoc in Hl. by injection Hl. }
  rewrite drop_while_head by done. by rewrite <- E, rev_involutive.
Qed.

Lemma length_chars s : length (chars s) = String.length s.
Proof. unfold chars. induction s; simpl; by f_equal. Qed.

Lemma drop_while_length p l : (length (drop_while p l) ≤ length l)%nat.
Proof.
  induction l as [|c l IH]; simpl; [done|]. destruct (p c); simpl; lia.
Qed.

Lemma drop_while_fixed p l c :
  drop_while p l = l → head l = Some c → p c = false.
Proof.
  destruct l as [|c' l]; [done|]. simpl. intros H [= ->].
  destruct (p c) eqn:Hc; [|done].
  pose proof (drop_while_length p l) as Hlen. rewrite H in Hlen. simpl in Hlen. lia.
Qed.

(** A non-empty string that [strip_class] leaves as it is begins and ends
    outside the class. *)
Lemma strip_class_fixed p l :
  strip_class p l = l → l ≠ [] →
  ∃ c d, head l = Some c ∧ p c = false ∧ last l = Some d ∧ p d = false.
Proof.
  unfold strip_class. intros Hfix Hne.
  assert (H1 : drop_while p l = l).
  { pose proof (drop_while_length p l) as L1.
    pose proof (drop_while_length p (rev (drop_while p l))) as L2.
    apply (f_equal (@length _)) in Hfix as Hlen.
    rewrite length_rev in Hlen. rewrite length_rev in L2.
    destruct (drop_while_decompose p l) as (a & Hl & _).
    apply (f_equal (@length _)) in Hl as Hl'. rewrite length_app in Hl'.
    destruct a; [done|]. simpl in Hl'. lia. }
  rewrite H1 in Hfix.
  assert (H2 : drop_while p (rev l) = rev l).
  { by rewrite <- Hfix at 2; rewrite rev_involutive. }
  destruct l as [|c l]; [done|].
  destruct (rev (c :: l)) as [|d r] eqn:E.
  { apply (f_equal (@length _)) in E. by rewrite length_rev in E. }
  exists c, d.
  split_and!; [done|exact (drop_while_fixed p _ c H1 eq_refl)|
              |exact (drop_while_fixed p _ d H2 eq_refl)].
  apply (f_equal (@rev N)) in E. rewrite rev_involutive in E. rewrite E.
  simpl. by rewrite last_snoc.
Qed.

(** A number, written with or without commas, followed by a unit of the
    table, with whitespace around and between. *)
Lemma normalize_number_unit units pad1 num gap suffix mult pad2 x :
  (∀ front, find (λ u, endswith (front ++ chars suffix) (chars u.1)) units
            = Some (suffix, mult)) →
  (∃ d, last (chars suffix) = Some d ∧ isspace d = false) →
  strip num = num →
  float (remove_commas num) = Ok x → is_nan x = false →
  Forall (λ c, isspace c = true) pad1 →
  Forall (λ c, isspace c = true) gap →
  Forall (λ c, isspace c = true) pad2 →
  normalize units (pad1 ++ num ++ gap ++ chars suffix ++ pad2)
  = nearest_integer (scale x mult).
Proof.
  intros Hfind (d & Hlast & Hd) Hnum Hf Hx Hpad1 Hgap Hpad2.
  assert (Hne : num ≠ []).
  { intros ->. by destruct (float_ok_strip _ _ Hf) as [H _]. }
  destruct (strip_class_fixed _ _ Hnum Hne) as (c0 & d0 & Hh & Hc0 & Hl & Hd0).
  assert (Hwhole : strip (pad1 ++ num ++ gap ++ chars suffix ++ pad2)
                   = (num ++ gap) ++ chars suffix).
  { unfold strip.
    replace (pad1 ++ num ++ gap ++ chars suffix ++ pad2)
      with (pad1 ++ ((num ++ gap) ++ chars suffix) ++ pad2)
      by (by rewrite <- !app_assoc).
    apply (strip_class_ends _ _ _ _ c0 d); try done.
    - destruct num; [done|]. simpl in *. done.
    - destruct (chars suffix) as [|s0 sf]; [done|].
      rewrite last_app. by rewrite Hlast. }
  unfold normalize. rewrite Hwhole.
  destruct (str_eqb _ []) eqn:E.
  { apply str_eqb_eq in E. apply app_eq_nil in E as [E _].
    by apply app_eq_nil in E as [E _]. }
  rewrite Hfind. rewrite <- length_chars, drop_last_app.
  assert (strip (num ++ gap) = num) as ->.
  { unfold strip. rewrite <- (app_nil_l (num ++ gap)).
    by apply (strip_class_ends _ _ _ _ c0 d0). }
  unfold parse_number. by rewrite Hf, Hx.
Qed.

Lemma price_unit_found front row :
  row ∈ price_units →
  find (λ u, endswith (front ++ chars row.1) (chars u.1)) price_units = Some row ∧
  ∃ d, last (chars row.1) = Some d ∧ isspace d = false.
Proof.
  unfold price_units. intros Hrow.
  repeat (apply elem_of_cons in Hrow as [->|Hrow];
    [split; [|by eexists];
     unfold endswith; cbn [find fst]; rewrite rev_app_distr; reflexivity|]).
  by apply elem_of_nil in Hrow.
Qed.

Lemma size_unit_found front row :
  row ∈ size_units →
  find (λ u, endswith (front ++ chars row.1) (chars u.1)) size_units = Some row ∧
  ∃ d, last (chars row.1) = Some d ∧ isspace d = false.
Proof.
  unfold size_units. intros Hrow.
  repeat (apply elem_of_cons in Hrow as [->|Hrow];
    [split; [|by eexists];
     unfold endswith; cbn [find fst]; rewrite rev_app_distr; reflexivity|]).
  by apply elem_of_nil in Hrow.
Qed.

(* ===================================================================== *)
(** * Theorems on [convert_price] and [convert_size] *)
(* ===================================================================== *)

Lemma returned_nearest_integer y :
  is_nan y = false → returned (nearest_integer y) = round y.
Proof. by destruct y. Qed.

Lemma scale_not_nan x row :
  row ∈ price_units ++ size_units → is_nan x = false →
  is_nan (scale x row.2) = false.
Proof.
  unfold price_units, size_units. intros Hrow Hx. cbn [app] in Hrow.
  repeat (apply elem_of_cons in Hrow as [->|Hrow];
    [unfold scale; cbn [snd]; case_decide; [done|];
     by apply (float_mul_not_nan x false)|]).
  by apply elem_of_nil in Hrow.
Qed.

(** C4. [convert_price] and its unit table. A string is any sequence of
    Unicode code points; [strip] and [float] are those of Python, which
    also drop the Unicode spaces and read the decimal digits of every
    script. (1) For every string the code returns what the table-driven
    normalizer of the specification gives (strip; empty is 0; first unit
    the string ends with; numeric prefix stripped, commas removed, parsed by
    [float]; multiplied; rounded; 0 when the prefix does not parse), and
    raises [OverflowError] exactly where that value has no nearest integer.
    (2) A number [num] followed by whitespace and a unit of the table is the
    number times the unit's multiplier, rounded. (3) A string that [float]
    reads as a number [x] gives [round x]. (4) [round] returns an integer at
    distance at most 1/2. (5) The four examples. (6) Two inputs outside
    ASCII: twelve in Extended Arabic-Indic digits (U+06F1, U+06F2) before
    [Lakh] is 1200000, also with a thin space (U+2009) around and an
    ideographic space (U+3000) before the unit. *)
Theorem convert_price_unit_table :
  (∀ raw, convert_price raw = returned (normalizePrice raw)) ∧
  (∀ pad1 num gap suffix mult pad2 x,
     (suffix, mult) ∈ price_units →
     strip num = num →
     float (remove_commas num) = Ok x → is_nan x = false →
     Forall (λ c, isspace c = true) pad1 →
     Forall (λ c, isspace c = true) gap →
     Forall (λ c, isspace c = true) pad2 →
     convert_price (pad1 ++ num ++ gap ++ chars suffix ++ pad2)
     = round (scale x mult)) ∧
  (∀ s x, float s = Ok x → is_nan x = false → convert_price s = round x) ∧
  (∀ x z, round x = Ok z → nearest x z) ∧
  convert_price (chars "1.5 Crore") = Ok 15000000 ∧
  convert_price (chars "50 Lakh") = Ok 5000000 ∧
  convert_price (chars "") = Ok 0 ∧
  convert_price (chars "abc") = Ok 0 ∧
  convert_price ([1777; 1778]%N ++ chars " Lakh") = Ok 1200000 ∧
  convert_price ([8201; 1777; 1778; 12288]%N ++ chars "Lakh" ++ [8201]%N)
  = Ok 1200000.
Proof.
  split_and!; [| | | |by vm_compute..].
  - apply convert_price_normalize.
  - intros pad1 num gap suffix mult pad2 x Hrow Hnum Hf Hx Hpad1 Hgap Hpad2.
    rewrite convert_price_normalize. unfold normalizePrice.
    destruct (price_unit_found [] _ Hrow) as [_ Hlast].
    rewrite (normalize_number_unit _ pad1 num gap suffix mult pad2 x); try done.
    + apply returned_nearest_integer.
      apply (scale_not_nan x (suffix, mult)); [|done].
      apply elem_of_app. by left.
    + intros front. by destruct (price_unit_found front _ Hrow).
  - apply convert_price_plain.
  - apply round_nearest.
Qed.

Lemma convert_price_unit_table_witness :
  convert_price (chars " " ++ chars "1,250.5" ++ chars "  " ++ chars "Lakh" ++ chars "")
  = round (scale (S754_finite false 5499757162135552 (-42)) 100000).
Proof.
  apply (proj1 (proj2 convert_price_unit_table)
           (chars " ") (chars "1,250.5") (chars "  ") "Lakh"%string 100000
           (chars "")).
  - apply list_elem_of_further, list_elem_of_here.
  - reflexivity.
  - vm_compute. reflexivity.
  - reflexivity.
  - by repeat constructor.
  - by repeat constructor.
  - by repeat constructor.
Defined.

(** C5. [convert_size] and its unit table. A string is any sequence of
    Unicode code points, as for C4. (1) For every string the code returns
    what the table-driven normalizer gives with the size units ([Marla] 225,
    [Kanal] 4500, [Sq. Yd.] 9, [Sq. Ft.] 1), and raises [OverflowError]
    exactly where that value has no nearest integer. (2) A number followed
    by whitespace and a unit of the table is the number times the unit's
    multiplier, rounded. (3) A string without a unit that [float] reads as a
    number [x] is taken as square feet: [round x]. (4) The four examples.
    (5) Two inputs outside ASCII: ten in Arabic-Indic digits (U+0661,
    U+0660) before [Marla] is 2250, and 1200 in fullwidth digits (U+FF11,
    U+FF12, U+FF10, U+FF10) is 1200. *)
Theorem convert_size_unit_table :
  (∀ raw, convert_size raw = returned (normalizeSize raw)) ∧
  (∀ pad1 num gap suffix mult pad2 x,
     (suffix, mult) ∈ size_units →
     strip num = num →
     float (remove_commas num) = Ok x → is_nan x = false →
     Forall (λ c, isspace c = true) pad1 →
     Forall (λ c, isspace c = true) gap →
     Forall (λ c, isspace c = true) pad2 →
     convert_size (pad1 ++ num ++ gap ++ chars suffix ++ pad2)
     = round (scale x mult)) ∧
  (∀ s x, float s = Ok x → is_nan x = false → convert_size s = round x) ∧
  convert_size (chars "10 Marla") = Ok 2250 ∧
  convert_size (chars "1 Kanal") = Ok 4500 ∧
  convert_size (chars "500 Sq. Ft.") = Ok 500 ∧
  convert_size (chars "bad") = Ok 0 ∧
  convert_size ([1633; 1632]%N ++ chars " Marla") = Ok 2250 ∧
  convert_size [65297; 65298; 65296; 65296]%N = Ok 1200.
Proof.
  split_and!; [| | |by vm_compute..].
  - apply convert_size_normalize.
  - intros pad1 num gap suffix mult pad2 x Hrow Hnum Hf Hx Hpad1 Hgap Hpad2.
    rewrite convert_size_normalize. unfold normalizeSize.
    destruct (size_unit_found [] _ Hrow) as [_ Hlast].
    rewrite (normalize_number_unit _ pad1 num gap suffix mult pad2 x); try done.
    + apply returned_nearest_integer.
      apply (scale_not_nan x (suffix, mult)); [|done].
      apply elem_of_app. by right.
    + intros front. by destruct (size_unit_found front _ Hrow).
  - apply convert_size_plain.
Qed.

Lemma convert_size_unit_table_witness :
  convert_size (chars "" ++ chars "1,200.5" ++ chars " " ++ chars "Sq. Yd." ++ chars " ")
  = round (scale (S754_finite false 5279854836580352 (-42)) 9).
Proof.
  apply (proj1 (proj2 convert_size_unit_table)
           (chars "") (chars "1,200.5") (chars " ") "Sq. Yd."%string 9
           (chars " ")).
  - do 2 apply list_elem_of_further. apply list_elem_of_here.
  - reflexivity.
  - vm_compute. reflexivity.
  - reflexivity.
  - by repeat constructor.
  - by repeat constructor.
  - by repeat constructor.
Defined.

(** Suffixes are matched exactly (case, spacing), ties of [round] go to the
    even integer, and a NaN counts as a number that does not parse. *)
Example normalizer_examples :
  convert_price (chars "1.5 crore") = Ok 0 ∧
  convert_price (chars "1.5Crore") = Ok 15000000 ∧
  convert_price (chars "1,50,000") = Ok 150000 ∧
  convert_price (chars "2.5") = Ok 2 ∧
  convert_price (chars "3.5") = Ok 4 ∧
  convert_price (chars "nan") = Ok 0 ∧
  convert_price (chars "   ") = Ok 0 ∧
  convert_size (chars "0.5 Marla") = Ok 112 ∧
  convert_size (chars "5 Sq. Yd.") = Ok 45 ∧
  convert_size (chars "5 sq. ft.") = Ok 0.
Proof. split_and!; by vm_compute. Qed.

(** Both normalizers return an integer or raise [OverflowError]; no other
    exception leaves them. *)
Lemma convert_returns_or_overflows s :
  (∃ z, convert_price s = Ok z) ∨ convert_price s = Raise OverflowError.
Proof.
  rewrite convert_price_normalize. destruct (normalizePrice s); simpl; eauto.
Qed.

Lemma convert_size_returns_or_overflows s :
  (∃ z, convert_size s = Ok z) ∨ convert_size s = Raise OverflowError.
Proof.
  rewrite convert_size_normalize. destruct (normalizeSize s); simpl; eauto.
Qed.

(** C6 (fails on the code). [float] reads "inf" (and a literal too large for
    a binary64, and a number whose product with the multiplier is too large)
    as an infinity; [round] then raises [OverflowError], which the handler
    for [ValueError] and [TypeError] does not catch: the exception reaches
    the caller. *)
Theorem normalizers_raise_on_infinity :
  convert_price (chars "inf") = Raise OverflowError ∧
  convert_size (chars "inf") = Raise OverflowError ∧
  convert_price (chars "1e400") = Raise OverflowError ∧
  convert_price (chars "1e308 Crore") = Raise OverflowError ∧
  convert_size (chars "-Infinity Marla") = Raise OverflowError.
Proof. split_and!; by vm_compute. Qed.


(* ===================================================================== *)
(** * Properties of the pagination loop *)
(* ===================================================================== *)

Section ScrapLoop.

Variable site : Site.

Lemma process_house_app acc house :
  process_house acc house = acc ++ process_house [] house.
Proof.
  unfold process_house. destruct (listing_of house) as [[l|]|e]; simpl;
    by rewrite ?app_nil_r.
Qed.

Lemma process_houses_app acc houses :
  process_houses acc houses = acc ++ process_houses [] houses.
Proof.
  unfold process_houses. revert acc.
  induction houses as [|h hs IH]; intros acc; simpl.
  - by rewrite app_nil_r.
  - rewrite (IH (process_house acc h)), (IH (process_house [] h)).
    rewrite (process_house_app acc h). by rewrite app_assoc.
Qed.

Lemma process_houses_length acc houses :
  length (process_houses acc houses) = length acc ↔ process_houses [] houses = [].
Proof.
  rewrite process_houses_app, length_app. split.
  - intros H. apply nil_length_inv. lia.
  - intros ->. simpl. lia.
Qed.

Arguments process_houses : simpl never.

Lemma page_body_requests p st :
  requests (page_body site p st).2 = requests st ++ [p].
Proof.
  unfold page_body. destruct (site p) as [?| |?|m t]; simpl; try done.
  destruct (house_list_of m t); simpl; [done|]. by case_match.
Qed.

Lemma page_body_house_info p st :
  house_info (page_body site p st).2 = house_info st ++ page_listings site p.
Proof.
  unfold page_body, page_listings.
  destruct (site p) as [?| |?|m t]; simpl; rewrite ?app_nil_r; try done.
  destruct (house_list_of m t) as [|h hl] eqn:E; simpl; [by rewrite app_nil_r|].
  case_match; simpl; apply process_houses_app.
Qed.

Lemma page_body_break p st :
  (page_body site p st).1 = Break ↔
  is_empty_page site p = true ∨
  (is_parsed_page site p = true ∧ page_listings site p = []).
Proof.
  unfold page_body, is_empty_page, is_parsed_page, page_listings.
  destruct (site p) as [?| |?|m t]; simpl;
    try (split; [done|by intros [?|[? _]]]).
  destruct (house_list_of m t) as [|h hl] eqn:E; simpl; [split; auto|].
  case_match eqn:Hlen; simpl.
  - apply Nat.eqb_eq in Hlen. apply process_houses_length in Hlen.
    split; auto.
  - apply Nat.eqb_neq in Hlen. rewrite process_houses_length in Hlen.
    split; [done|]. by intros [?|[_ ?]].
Qed.

Lemma page_body_parsed_errors p st :
  is_parsed_page site p = true → consecutive_errors (page_body site p st).2 = 0.
Proof.
  unfold page_body, is_parsed_page.
  destruct (site p) as [?| |?|m t]; simpl; try done.
  destruct (house_list_of m t) as [|h hl] eqn:E; simpl; [done|]. by case_match.
Qed.

Lemma page_body_failure p st :
  is_failure site p = true →
  page_body site p st =
    (Continue, {| house_info := house_info st;
                  consecutive_errors := consecutive_errors st + 1;
                  requests := requests st ++ [p] |}).
Proof. unfold page_body, is_failure. by destruct (site p). Qed.

(** The loop requests a prefix [done] of its pages, appends what these pages
    yield, and a page that stops site is the last one requested. *)
Lemma scrap_loop_inv pages st :
  ∃ done,
    done `prefix_of` pages ∧
    requests (scrap_loop site pages st) = requests st ++ done ∧
    house_info (scrap_loop site pages st) =
      house_info st ++ concat (page_listings site <$> done) ∧
    ∀ p, p ∈ done → stops site p →
      last done = Some p ∧
      (is_parsed_page site p = true → consecutive_errors (scrap_loop site pages st) = 0).
Proof.
  revert st. induction pages as [|q rest IH]; intros st; simpl.
  - exists []. rewrite !app_nil_r. split_and!; try done. intros p Hp. by inversion Hp.
  - case_match.
    { exists []. rewrite !app_nil_r. split_and!; try done.
      - apply prefix_nil.
      - intros p Hp. by inversion Hp. }
    destruct (page_body site q st) as [c st'] eqn:Hbody.
    pose proof (page_body_requests q st) as Hreq.
    pose proof (page_body_house_info q st) as Hinfo.
    pose proof (page_body_break q st) as Hbreak.
    pose proof (page_body_parsed_errors q st) as Herr.
    rewrite Hbody in Hreq, Hinfo, Hbreak, Herr. simpl in *.
    destruct c.
    + destruct (IH st') as (done & Hpre & Hr & Hi & Hstop).
      exists (q :: done). split_and!.
      * by apply prefix_cons.
      * rewrite Hr, Hreq. by rewrite <- app_assoc.
      * rewrite Hi, Hinfo. simpl. by rewrite <- app_assoc.
      * intros p Hp Hs. apply elem_of_cons in Hp as [->|Hp].
        { exfalso. apply Hbreak in Hs. done. }
        destruct (Hstop p Hp Hs) as [Hlast Hzero]. split; [|done].
        destruct done; [by inversion Hp|done].
    + exists [q]. split_and!.
      * apply prefix_cons, prefix_nil.
      * done.
      * simpl. by rewrite app_nil_r.
      * intros p Hp Hs. apply list_elem_of_singleton in Hp as ->. split; [done|].
        done.
Qed.


Lemma scrap_loop_cons p rest st :
  consecutive_errors st < max_consecutive_errors →
  scrap_loop site (p :: rest) st =
  match page_body site p st with
  | (Continue, st') => scrap_loop site rest st'
  | (Break, st') => st'
  end.
Proof.
  intros Hlt. cbn [scrap_loop]. case_match eqn:Hle; [|done].
  apply Z.leb_le in Hle. lia.
Qed.




Lemma prefix_seqZ (l : list Z) m n :
  l `prefix_of` seqZ m n → l = seqZ m (Z.of_nat (length l)).
Proof.
  revert m n. induction l as [|x l IH]; intros m n Hl; [done|].
  destruct (decide (0 < n)) as [Hn|Hn].
  - rewrite seqZ_cons in Hl by done.
    apply prefix_cons_inv_1 in Hl as Hx. apply prefix_cons_inv_2 in Hl. subst x.
    rewrite seqZ_cons by (simpl; lia). f_equal.
    replace (Z.pred (Z.of_nat (length (m :: l)))) with (Z.of_nat (length l))
      by (simpl; lia).
    by eapply IH.
  - rewrite seqZ_nil in Hl by lia. by apply prefix_nil_inv in Hl.
Qed.

Lemma last_seqZ m n : 0 < n → last (seqZ m n) = Some (m + n - 1).
Proof.
  intros Hn. replace n with (Z.of_nat (S (Z.to_nat (n - 1)))) at 1 by lia.
  rewrite seqZ_S, last_snoc. f_equal. lia.
Qed.

(** The requests of a run are [1 .. k] for some [k]; the accumulator is what
    the requested pages yield, in order. *)
Lemma scrap_run_inv pages_range :
  requests (scrap_run site pages_range) `prefix_of` page_range pages_range ∧
  scrap site pages_range =
    concat (page_listings site <$> requests (scrap_run site pages_range)) ∧
  ∀ p, p ∈ requests (scrap_run site pages_range) → stops site p →
    requests (scrap_run site pages_range) = seqZ 1 p ∧
    (is_parsed_page site p = true →
     consecutive_errors (scrap_run site pages_range) = 0).
Proof.
  unfold scrap, scrap_run.
  destruct (scrap_loop_inv (page_range pages_range) initial)
    as (done & Hpre & Hr & Hi & Hstop).
  simpl in Hr, Hi. rewrite Hr, Hi. split_and!; try done.
  intros p Hp Hs. destruct (Hstop p Hp Hs) as [Hlast Hzero]. split; [|done].
  apply prefix_seqZ in Hpre as Hdone. rewrite Hdone in Hlast |- *.
  destruct done as [|d done]; [by inversion Hp|].
  rewrite last_seqZ in Hlast by (simpl; lia).
  injection Hlast as Hlast. f_equal. cbn [length] in *. lia.
Qed.

End ScrapLoop.

(* ===================================================================== *)
(** * Theorems on [scrap] *)
(* ===================================================================== *)





(** The scenario of the specification: every page fails, ten pages allowed. *)
Example breaker_scenario :
  scrap site_down 10 = [] ∧ requests (scrap_run site_down 10) = [1; 2; 3].
Proof. by vm_compute. Qed.

(** Two pages of listings, an outage of three pages: pages 1 to 5 are
    requested, the two listings are returned. *)
Example outage_scenario :
  length (scrap site_outage 10) = 2%nat ∧
  requests (scrap_run site_outage 10) = [1; 2; 3; 4; 5].
Proof. by vm_compute. Qed.

Lemma process_houses_nothing acc houses :
  Forall (λ h, ∀ listing, listing_of h ≠ Ok (Some listing)) houses →
  process_houses acc houses = acc.
Proof.
  unfold process_houses. intros Hall. revert acc.
  induction Hall as [|h hs Hh _ IH]; intros acc; [done|].
  simpl. rewrite IH. unfold process_house.
  destruct (listing_of h) as [[l|]|e] eqn:E; try done. by destruct (Hh l).
Qed.

(** C2. Duplicate/last-page detection. (1) On a page with listing nodes the
    consecutive-error counter is 0 after the page, and the loop breaks
    exactly when the accumulator is as long as before the page. (2) The
    accumulator keeps its length exactly when the page's nodes yield no
    listing, which happens when no node of a non-empty page yields one (no
    price, or an exception while its fields are read). (3) In a run, once
    such a page [N] is requested it is the last one: the requests are
    [1 .. N], page [N+1] is not fetched, and the counter ends at 0. *)
Theorem no_new_listings_stops :
  (∀ (site : Site) (N : Z) (st : State),
     is_parsed_page site N = true →
     consecutive_errors (page_body site N st).2 = 0 ∧
     ((page_body site N st).1 = Break ↔
      length (house_info (page_body site N st).2) = length (house_info st))) ∧
  (∀ (acc : list Listing) (houses : list House),
     (length (process_houses acc houses) = length acc ↔
      process_houses [] houses = []) ∧
     (Forall (λ h, ∀ listing, listing_of h ≠ Ok (Some listing)) houses →
      process_houses acc houses = acc)) ∧
  (∀ (site : Site) (pages_range N : Z),
     is_parsed_page site N = true →
     page_listings site N = [] →
     N ∈ requests (scrap_run site pages_range) →
     requests (scrap_run site pages_range) = seqZ 1 N ∧
     ((N + 1) ∉ requests (scrap_run site pages_range)) ∧
     consecutive_errors (scrap_run site pages_range) = 0).
Proof.
  split_and!.
  - intros site N st Hp. split; [by apply page_body_parsed_errors|].
    rewrite page_body_break, page_body_house_info, length_app.
    unfold is_empty_page, is_parsed_page in *.
    destruct (site N) as [?| |?|m t]; try done.
    destruct (house_list_of m t); [done|]. split.
    + intros [?|[_ ->]]; [done|]. simpl. lia.
    + intros Hlen. right. split; [done|]. apply nil_length_inv. lia.
  - intros acc houses. split; [apply process_houses_length|].
    apply process_houses_nothing.
  - intros site pages_range N Hp Hnone Hreq.
    destruct (scrap_run_inv site pages_range) as (_ & _ & Hstop).
    destruct (Hstop N Hreq) as [Hr Hz]; [by right|].
    split_and!; [done| |by apply Hz].
    rewrite Hr, elem_of_seqZ. lia.
Qed.

Lemma no_new_listings_stops_witness :
  requests (scrap_run site_unpriced_second 10) = seqZ 1 2 ∧
  ((2 + 1) ∉ requests (scrap_run site_unpriced_second 10)) ∧
  consecutive_errors (scrap_run site_unpriced_second 10) = 0.
Proof.
  apply (proj2 (proj2 no_new_listings_stops) site_unpriced_second 10 2).
  - reflexivity.
  - reflexivity.
  - vm_compute. apply list_elem_of_further, list_elem_of_here.
Defined.

(** C3. Empty-page stop. (1) In a run, an empty page [N] (no node under
    either selector) that is requested is the last page requested, whatever
    came before: the requests are [1 .. N] and the result is what pages
    [1 .. N-1] yielded. (2) When page 1 yields 20 listings and page 2 is
    empty, the result has 20 records and the requests are pages 1 and 2. *)
Theorem empty_page_stops :
  (∀ (site : Site) (pages_range N : Z),
     is_empty_page site N = true →
     N ∈ requests (scrap_run site pages_range) →
     requests (scrap_run site pages_range) = seqZ 1 N ∧
     scrap site pages_range = concat (page_listings site <$> seqZ 1 (N - 1))) ∧
  (∀ (site : Site) (pages_range : Z),
     2 ≤ pages_range →
     length (page_listings site 1) = 20%nat →
     is_empty_page site 2 = true →
     length (scrap site pages_range) = 20%nat ∧
     requests (scrap_run site pages_range) = [1; 2]).
Proof.
  assert (Hgen : ∀ (site : Site) (pages_range N : Z),
     is_empty_page site N = true →
     N ∈ requests (scrap_run site pages_range) →
     requests (scrap_run site pages_range) = seqZ 1 N ∧
     scrap site pages_range = concat (page_listings site <$> seqZ 1 (N - 1))).
  { intros site pages_range N He Hreq.
    destruct (scrap_run_inv site pages_range) as (_ & Hacc & Hstop).
    destruct (Hstop N Hreq) as [Hr _]; [by left|]. split; [done|].
    rewrite Hacc, Hr.
    assert (0 < N) by (rewrite Hr in Hreq; apply elem_of_seqZ in Hreq; lia).
    replace N with (N - 1 + 1) at 1 by lia. rewrite seqZ_app by lia.
    rewrite fmap_app, concat_app.
    replace (1 + (N - 1)) with N by lia.
    replace (seqZ N 1) with [N] by (unfold seqZ; simpl; f_equal; lia). simpl.
    replace (page_listings site N) with (@nil Listing); [by rewrite !app_nil_r|].
    unfold page_listings, is_empty_page in *.
    destruct (site N) as [?| |?|m t]; try done. by destruct (house_list_of m t). }
  split; [exact Hgen|].
  intros site pages_range Hn H20 He.
  assert (Hreq : 2 ∈ requests (scrap_run site pages_range)).
  { unfold scrap_run, page_range.
    assert (seqZ 1 pages_range = 1 :: 2 :: seqZ 3 (pages_range - 2)) as ->.
    { rewrite seqZ_cons by lia. rewrite seqZ_cons by lia.
      do 3 f_equal; lia. }
    rewrite scrap_loop_cons by done.
    pose proof (page_body_break site 1 initial) as Hb.
    pose proof (page_body_parsed_errors site 1 initial) as Hz.
    destruct (page_body site 1 initial) as [c st1]. simpl in Hb, Hz.
    assert (Hp1 : is_parsed_page site 1 = true).
    { unfold is_parsed_page, page_listings in *.
      destruct (site 1) as [?| |?|m t]; try done.
      by destruct (house_list_of m t). }
    destruct c.
    - rewrite scrap_loop_cons by (by rewrite Hz).
      pose proof (page_body_requests site 2 st1) as Hreq2.
      destruct (page_body site 2 st1) as [c2 st2]. simpl in Hreq2.
      destruct c2;
        [|rewrite Hreq2, elem_of_app, list_elem_of_singleton; by right].
      destruct (scrap_loop_inv site (seqZ 3 (pages_range - 2)) st2)
        as (done & _ & Hr2 & _).
      rewrite Hr2, Hreq2, !elem_of_app, list_elem_of_singleton. by left; right.
    - exfalso. destruct Hb as [Hb _]. destruct (Hb eq_refl) as [H|[_ H]].
      + unfold is_empty_page, is_parsed_page in *.
        destruct (site 1) as [?| |?|m t]; try done.
        by destruct (house_list_of m t).
      + by rewrite H in H20. }
  destruct (Hgen site pages_range 2 He Hreq) as [Hr Hacc]. split; [|done].
  rewrite Hacc. change (seqZ 1 (2 - 1)) with [Z.of_nat 0 + 1]. simpl.
  by rewrite app_nil_r.
Qed.

Lemma empty_page_stops_witness :
  length (scrap site_one_page 7) = 20%nat ∧
  requests (scrap_run site_one_page 7) = [1; 2].
Proof.
  apply (proj2 empty_page_stops site_one_page 7).
  - lia.
  - reflexivity.
  - reflexivity.
Defined.

(** C10. The accumulator is append-only. (1) One listing node leaves the
    accumulator as it is or appends one record. (2) From any state and over
    any pages, the loop ends with an accumulator that extends the one it
    started with; as this holds from every intermediate state, whatever a
    page appended is in the list returned, whichever way the loop ends
    (breaker, empty page, no new listing, or no page left). (3) The list
    [scrap] returns is what the requested pages yielded, in the order of the
    requests. *)
Theorem accumulator_append_only :
  (∀ (acc : list Listing) (house : House),
     process_house acc house = acc ∨
     ∃ listing, process_house acc house = acc ++ [listing]) ∧
  (∀ (site : Site) (pages : list Z) (st : State),
     house_info st `prefix_of` house_info (scrap_loop site pages st)) ∧
  (∀ (site : Site) (pages_range : Z),
     scrap site pages_range =
     concat (page_listings site <$> requests (scrap_run site pages_range))).
Proof.
  split_and!.
  - intros acc house. unfold process_house.
    destruct (listing_of house) as [[l|]|e]; eauto.
  - intros site pages st.
    destruct (scrap_loop_inv site pages st) as (done & _ & _ & Hi & _).
    rewrite Hi. by apply prefix_app_r.
  - intros site pages_range. apply scrap_run_inv.
Qed.

(* ===================================================================== *)
(** * Theorems on the per-listing extraction *)
(* ===================================================================== *)

(** A listing without a price is not appended, and nothing is raised. *)
Lemma listing_of_unpriced house :
  sel_price house = None → listing_of house = Ok None.
Proof. unfold listing_of. by intros ->. Qed.

Lemma bind_Ok_inv {A B} (r : Result A) (k : A → Result B) (b : B) :
  r ≫= k = Ok b → ∃ a, r = Ok a ∧ k a = Ok b.
Proof. destruct r as [a|e]; [by exists a|done]. Qed.

(** With a price, the listing is appended or an exception drops it. *)
Lemma listing_of_priced house :
  is_Some (sel_price house) → listing_of house ≠ Ok None.
Proof.
  intros [p Hp] H. unfold listing_of in H. rewrite Hp in H.
  do 6 (apply bind_Ok_inv in H as (? & _ & H)). done.
Qed.

Lemma int_raises s e : int s = Raise e → e = ValueError.
Proof.
  unfold int, int_of_ascii. destruct (drop_underscores _ _); [|by intros [= <-]].
  destruct (sign _). case_match; [by intros [= <-]|done].
Qed.

Lemma text_num_total tag : ∃ z, text tag dt_num = Ok (VInt z).
Proof.
  destruct tag as [t|]; simpl; [|by eexists].
  destruct (int (strip (tag_text t))) as [z|e] eqn:E; simpl; [by eexists|].
  rewrite (int_raises _ _ E). by eexists.
Qed.

Lemma extract_additional_features_eq house :
  extract_additional_features house =
  {| f_property_type :=
       VStr (from_option (λ t, strip (tag_text t)) [] (sel_property_type house));
     f_date_added :=
       VStr (from_option (λ t, strip (tag_text t)) [] (sel_date_added house));
     f_listing_id :=
       VStr (from_option (λ t, strip (tag_text t)) [] (sel_reference house)) |}.
Proof.
  unfold extract_additional_features.
  by destruct (sel_property_type house), (sel_date_added house),
    (sel_reference house).
Qed.

(** Where the fallback size lookup has a location to start from and no
    conversion overflows, a listing with a price is appended, and a field
    without a node gets its default. *)
Lemma listing_of_included house p acc :
  sel_price house = Some p →
  is_Some (sel_size house) ∨ is_Some (sel_location house) →
  convert_price (strip (tag_text p)) ≠ Raise OverflowError →
  (∀ t, size_tag_of house = Some t →
        convert_size (strip (tag_text t)) ≠ Raise OverflowError) →
  ∃ l, listing_of house = Ok (Some l) ∧
       process_house acc house = acc ++ [l] ∧
       (sel_location house = None → location l = VStr []) ∧
       (sel_beds house = None → bedrooms l = VInt 0) ∧
       (sel_baths house = None → baths l = VInt 0) ∧
       (size_tag_of house = None → size l = VFloat (S754_zero false)) ∧
       (sel_property_type house = None → property_type l = VStr []) ∧
       (sel_date_added house = None → date_added l = VStr []) ∧
       (sel_reference house = None → original_listing_id l = VStr []).
Proof.
  intros Hp Hsz Hprice Hsize.
  assert (Hl : ∃ l, listing_of house = Ok (Some l) ∧
       (sel_location house = None → location l = VStr []) ∧
       (sel_beds house = None → bedrooms l = VInt 0) ∧
       (sel_baths house = None → baths l = VInt 0) ∧
       (size_tag_of house = None → size l = VFloat (S754_zero false)) ∧
       (sel_property_type house = None → property_type l = VStr []) ∧
       (sel_date_added house = None → date_added l = VStr []) ∧
       (sel_reference house = None → original_listing_id l = VStr [])).
  { unfold listing_of. rewrite Hp.
    assert (Htag : match sel_size house with
                   | Some t => Ok (Some t)
                   | None => location_parent_select house
                   end = Ok (size_tag_of house)).
    { unfold size_tag_of, location_parent_select.
      destruct (sel_size house); [done|].
      destruct Hsz as [[? [=]]|[t Ht]]. by rewrite Ht. }
    rewrite Htag. cbn [mbind result_bind].
    assert (Hloc : ∃ v, text (sel_location house) dt_str = Ok v ∧
                        (sel_location house = None → v = VStr [])).
    { destruct (sel_location house); simpl; eexists; (split; [reflexivity|done]). }
    destruct Hloc as (vl & -> & Hvl).
    assert (Hpr : ∃ v, text (Some p) dt_price = Ok v).
    { simpl. destruct (convert_returns_or_overflows (strip (tag_text p)))
        as [[z ->]|Ho]; [by eexists|done]. }
    destruct Hpr as (vp & ->).
    destruct (text_num_total (sel_beds house)) as (zb & Hb).
    destruct (text_num_total (sel_baths house)) as (za & Ha).
    rewrite Hb, Ha.
    assert (Hsv : ∃ v, text (size_tag_of house) dt_size = Ok v ∧
                       (size_tag_of house = None → v = VFloat (S754_zero false))).
    { destruct (size_tag_of house) as [t|] eqn:Et; simpl;
        [|eexists; split; [reflexivity|done]].
      destruct (convert_size_returns_or_overflows (strip (tag_text t)))
        as [[z ->]|Ho]; [|by destruct (Hsize t eq_refl)].
      simpl. eexists. split; [reflexivity|done]. }
    destruct Hsv as (vs & -> & Hvs).
    eexists. split; [reflexivity|]. cbn [location bedrooms baths size
      property_type date_added original_listing_id].
    split_and!.
    - done.
    - intros Hn. rewrite Hn in Hb. simpl in Hb. by injection Hb as <-.
    - intros Hn. rewrite Hn in Ha. simpl in Ha. by injection Ha as <-.
    - done.
    - rewrite extract_additional_features_eq. by intros ->.
    - rewrite extract_additional_features_eq. by intros ->.
    - rewrite extract_additional_features_eq. by intros ->. }
  destruct Hl as (l & Hl & Hrest). exists l. split; [done|]. split; [|done].
  unfold process_house. by rewrite Hl.
Qed.

(** C7 (fails on the code). A listing node with a price, no location and no
    size under the first selector is dropped: the fallback size lookup reads
    [location.parent] on [None], the [AttributeError] is caught by the
    per-listing handler, and the listing is skipped instead of getting an
    empty location. The page goes on: the next listing is appended. *)
Theorem priced_listing_without_location_dropped :
  is_Some (sel_price house_without_location) ∧
  listing_of house_without_location = Raise AttributeError ∧
  process_house [] house_without_location = [] ∧
  length (process_houses [] [house_without_location; full_house]) = 1%nat.
Proof. split_and!; [by eexists | reflexivity | reflexivity | by vm_compute]. Qed.

(* ===================================================================== *)
(** * Theorems on the per-city loop *)
(* ===================================================================== *)

Section Cities.

Variable max_pages : Z.
Variable world : World.

Lemma process_city_scraped city w r :
  scraped (process_city max_pages city w r) = scraped r ++ [city].
Proof.
  unfold process_city. destruct (scrap_fault w); [done|].
  destruct (scrap (site w) max_pages); [done|].
  destruct (json_upload_fault w); [done|]. by destruct (csv_upload_fault w).
Qed.

Lemma process_city_raises city w r e :
  raises max_pages w = Some e →
  city_stats (process_city max_pages city w r) =
  <[city_name city := error e]> (city_stats r).
Proof.
  unfold raises, process_city. destruct (scrap_fault w); [by intros [= ->]|].
  destruct (scrap (site w) max_pages); [done|].
  destruct (json_upload_fault w); [by intros [= ->]|].
  destruct (csv_upload_fault w); [by intros [= ->]|done].
Qed.

Lemma process_city_other city w r name :
  name ≠ city_name city →
  city_stats (process_city max_pages city w r) !! name = city_stats r !! name.
Proof.
  intros Hne. unfold process_city. destruct (scrap_fault w); simpl.
  { by rewrite lookup_insert_ne. }
  destruct (scrap (site w) max_pages); simpl.
  { by rewrite lookup_insert_ne. }
  destruct (json_upload_fault w); simpl.
  { by rewrite lookup_insert_ne. }
  destruct (csv_upload_fault w); simpl; by rewrite lookup_insert_ne.
Qed.

Lemma process_cities_scraped i cs r :
  scraped (process_cities max_pages world i cs r) = scraped r ++ cs.
Proof.
  revert i r. induction cs as [|c cs IH]; intros i r; simpl.
  - by rewrite app_nil_r.
  - rewrite IH, process_city_scraped. by rewrite <- app_assoc.
Qed.

Lemma process_cities_other i cs r name :
  name ∉ city_name <$> cs →
  city_stats (process_cities max_pages world i cs r) !! name =
  city_stats r !! name.
Proof.
  revert i r. induction cs as [|c cs IH]; intros i r Hn; simpl; [done|].
  rewrite fmap_cons, not_elem_of_cons in Hn. destruct Hn as [Hne Hn].
  rewrite IH by done. by apply process_city_other.
Qed.

Lemma process_cities_app i cs1 cs2 r :
  process_cities max_pages world i (cs1 ++ cs2) r =
  process_cities max_pages world (i + length cs1) cs2
    (process_cities max_pages world i cs1 r).
Proof.
  revert i r. induction cs1 as [|c cs1 IH]; intros i r; simpl.
  - by rewrite Nat.add_0_r.
  - rewrite IH. f_equal. lia.
Qed.

End Cities.

(** The names of the program's cities are distinct: no city overwrites the
    entry of another. *)
Lemma cities_names_distinct : NoDup (city_name <$> cities).
Proof. apply (bool_decide_unpack _). by vm_compute. Qed.

(** C9. City failure isolation. Let the iteration of city [c], that follows
    the cities [pre], raise an exception with message [e] (from the call of
    [scrap] or from an upload). Then the iteration records
    [status = error] with [e] under [c]'s name and leaves every other entry
    as it was; the run goes on with the cities [post] from that state; [scrap]
    is called for every city of the list, in order; in the final statistics
    [c] is an error with message [e] unless a later city has its name, and
    the entry of any other name that no later city has is the one recorded
    before [c]. *)
Theorem city_failure_isolated (max_pages : Z) (world : World)
    (pre : list City) (c : City) (post : list City) (e : string) :
  raises max_pages (world (length pre)) = Some e →
  city_stats (process_city max_pages c (world (length pre)) (run max_pages world pre))
    = <[city_name c := error e]> (city_stats (run max_pages world pre)) ∧
  run max_pages world (pre ++ c :: post)
    = process_cities max_pages world (S (length pre)) post
        (process_city max_pages c (world (length pre)) (run max_pages world pre)) ∧
  scraped (run max_pages world (pre ++ c :: post)) = pre ++ c :: post ∧
  (city_name c ∉ city_name <$> post →
   city_stats (run max_pages world (pre ++ c :: post)) !! city_name c
     = Some (error e)) ∧
  (∀ name, name ≠ city_name c → name ∉ city_name <$> post →
   city_stats (run max_pages world (pre ++ c :: post)) !! name
     = city_stats (run max_pages world pre) !! name).
Proof.
  intros Hraise.
  assert (Hrun : run max_pages world (pre ++ c :: post)
    = process_cities max_pages world (S (length pre)) post
        (process_city max_pages c (world (length pre)) (run max_pages world pre))).
  { unfold run. rewrite process_cities_app. simpl. done. }
  split_and!.
  - by apply process_city_raises.
  - done.
  - unfold run. by rewrite process_cities_scraped.
  - intros Hpost. rewrite Hrun, process_cities_other by done.
    rewrite (process_city_raises _ _ _ _ e) by done. apply lookup_insert_eq.
  - intros name Hne Hpost. rewrite Hrun, process_cities_other by done.
    by apply process_city_other.
Qed.

Lemma city_failure_isolated_witness :
  city_stats (process_city 5 {| city_id := 2; city_name := "Karachi" |}
                (world_upload_refused (length (take 1 cities)))
                (run 5 world_upload_refused (take 1 cities)))
    = <[city_name {| city_id := 2; city_name := "Karachi" |} := error "upload refused"]>
        (city_stats (run 5 world_upload_refused (take 1 cities))) ∧
  run 5 world_upload_refused
      (take 1 cities ++ {| city_id := 2; city_name := "Karachi" |} :: drop 2 cities)
    = process_cities 5 world_upload_refused (S (length (take 1 cities))) (drop 2 cities)
        (process_city 5 {| city_id := 2; city_name := "Karachi" |}
           (world_upload_refused (length (take 1 cities)))
           (run 5 world_upload_refused (take 1 cities))) ∧
  scraped (run 5 world_upload_refused
             (take 1 cities ++ {| city_id := 2; city_name := "Karachi" |} :: drop 2 cities))
    = take 1 cities ++ {| city_id := 2; city_name := "Karachi" |} :: drop 2 cities ∧
  (city_name {| city_id := 2; city_name := "Karachi" |} ∉ city_name <$> drop 2 cities →
   city_stats (run 5 world_upload_refused
                 (take 1 cities ++ {| city_id := 2; city_name := "Karachi" |} :: drop 2 cities))
     !! city_name {| city_id := 2; city_name := "Karachi" |}
     = Some (error "upload refused")) ∧
  (∀ name, name ≠ city_name {| city_id := 2; city_name := "Karachi" |} →
   name ∉ city_name <$> drop 2 cities →
   city_stats (run 5 world_upload_refused
                 (take 1 cities ++ {| city_id := 2; city_name := "Karachi" |} :: drop 2 cities))
     !! name
     = city_stats (run 5 world_upload_refused (take 1 cities)) !! name).
Proof.
  apply (city_failure_isolated 5 world_upload_refused (take 1 cities)
           {| city_id := 2; city_name := "Karachi" |} (drop 2 cities)
           "upload refused").
  vm_compute. reflexivity.
Defined.

Section Totals.

Variable max_pages : Z.
Variable world : World.

Lemma sum_listings_count_insert stats name entry :
  stats !! name = None →
  sum_listings_count (<[name := entry]> stats) =
  sum_listings_count stats + default 0 (listings_count entry).
Proof.
  intros Hnone. unfold sum_listings_count.
  rewrite map_fold_insert_L; [done| |done]. intros. lia.
Qed.

Lemma process_city_total city w r :
  raises max_pages w = None →
  city_stats r !! city_name city = None →
  total_listings r = sum_listings_count (city_stats r) →
  total_listings (process_city max_pages city w r) =
  sum_listings_count (city_stats (process_city max_pages city w r)).
Proof.
  unfold raises, process_city. intros Hraise Hnone Hinv.
  destruct (scrap_fault w); [done|].
  destruct (scrap (site w) max_pages) as [|l ls]; simpl.
  { rewrite sum_listings_count_insert by done. simpl. lia. }
  destruct (json_upload_fault w); [done|].
  destruct (csv_upload_fault w); [done|]. simpl.
  rewrite sum_listings_count_insert by done. simpl. lia.
Qed.

(** Where no iteration raises and the names are distinct, [total_listings]
    is the sum of the recorded counts. *)
Lemma process_cities_total i cs r :
  NoDup (city_name <$> cs) →
  (∀ j, (i ≤ j < i + length cs)%nat → raises max_pages (world j) = None) →
  (∀ c, c ∈ cs → city_stats r !! city_name c = None) →
  total_listings r = sum_listings_count (city_stats r) →
  total_listings (process_cities max_pages world i cs r) =
  sum_listings_count (city_stats (process_cities max_pages world i cs r)).
Proof.
  revert i r. induction cs as [|c cs IH]; intros i r Hnd Hraise Hfresh Hinv; [done|].
  rewrite fmap_cons in Hnd. apply NoDup_cons in Hnd as [Hc Hnd].
  simpl. apply IH; [done| | |].
  - intros j Hj. apply Hraise. simpl. lia.
  - intros c' Hc'. rewrite process_city_other.
    + apply Hfresh. by right.
    + intros Heq. apply Hc. rewrite <- Heq. by apply list_elem_of_fmap_2.
  - apply process_city_total; [|by apply Hfresh; left|done].
    apply Hraise. simpl. lia.
Qed.

End Totals.

(** C8 (fails on the code). [total_listings] is increased as soon as a
    city's listings are counted; when an upload then raises, the handler
    records an ["error"] entry, which has no ["listings_count"]. In a run
    over the program's cities where each city yields twenty listings and
    the JSON upload of the second city is refused, [total_listings] is 220
    and the counts recorded in [city_stats] add up to 200. *)
Theorem total_listings_counts_failed_city :
  total_listings (run 5 world_upload_refused cities) = 220 ∧
  sum_listings_count (city_stats (run 5 world_upload_refused cities)) = 200 ∧
  city_stats (run 5 world_upload_refused cities) !! "Karachi"
    = Some (error "upload refused").
Proof. by vm_compute. Qed.


(* ===================================================================== *)
(** * Further properties of [text] and of the per-listing extraction *)
(* ===================================================================== *)

Lemma drop_while_result p l :
  drop_while p l = [] ∨ ∃ c, head (drop_while p l) = Some c ∧ p c = false.
Proof.
  induction l as [|c l IH]; simpl; [by left|].
  destruct (p c) eqn:Hc; [done|]. right. by exists c.
Qed.

Lemma drop_while_last p l :
  drop_while p l ≠ [] → last (drop_while p l) = last l.
Proof.
  intros Hne. destruct (drop_while_decompose p l) as (a & Hl & _).
  destruct (drop_while p l) as [|x d] eqn:E; [done|].
  rewrite Hl. by rewrite last_app_cons.
Qed.

Lemma head_rev_last (l : str) : head (rev l) = last l.
Proof. rewrite rev_alt. apply head_reverse. Qed.

Lemma last_rev_head (l : str) : last (rev l) = head l.
Proof. rewrite rev_alt. apply last_reverse. Qed.

(** What [strip_class] returns is empty or begins and ends outside the
    class. *)
Lemma strip_class_result p s :
  strip_class p s = [] ∨
  ∃ c d, head (strip_class p s) = Some c ∧ p c = false ∧
         last (strip_class p s) = Some d ∧ p d = false.
Proof.
  unfold strip_class.
  destruct (drop_while_result p (rev (drop_while p s))) as [->|(d & Hd & Hpd)];
    [by left|]. right.
  destruct (drop_while p (rev (drop_while p s))) as [|d' u] eqn:Eu; [done|].
  injection Hd as ->.
  assert (Hlast : last (d :: u) = last (rev (drop_while p s))).
  { rewrite <- Eu. apply drop_while_last. by rewrite Eu. }
  destruct (drop_while_result p s) as [Hnil|(c & Hc & Hpc)].
  { rewrite Hnil in Eu. done. }
  exists c, d. split_and!; [|done| |done].
  - by rewrite head_rev_last, Hlast, last_rev_head.
  - simpl. by rewrite last_snoc.
Qed.

Lemma strip_class_idemp p s : strip_class p (strip_class p s) = strip_class p s.
Proof.
  destruct (strip_class_result p s) as [->|(c & d & Hh & Hc & Hl & Hd)]; [done|].
  rewrite <- (app_nil_r (strip_class p s)) at 1.
  rewrite <- (app_nil_l (strip_class p s ++ [])).
  by apply (strip_class_ends p [] _ [] c d).
Qed.

Lemma strip_idemp s : strip (strip s) = strip s.
Proof. apply strip_class_idemp. Qed.

Lemma digit_not_special c :
  isdigit c = true →
  isspace c = false ∧ c_isspace c = false ∧ is_underscore c = false ∧
  (c =? ch "-")%N = false ∧ (c =? ch "+")%N = false.
Proof.
  intros H. by destruct (isdigit_props c H) as (_ & H1 & H2 & H3 & H4 & H5 & _).
Qed.

Lemma isdigit_ascii ds :
  Forall (λ c, isdigit c = true) ds → Forall (λ c, (c <? 128)%N = true) ds.
Proof.
  intros H. eapply Forall_impl; [exact H|]. intros c Hc.
  destruct (isdigit_props c Hc) as (_ & _ & _ & _ & _ & _ & Hlt).
  apply N.ltb_lt in Hlt. apply N.ltb_lt. lia.
Qed.

Lemma drop_underscores_none prev s :
  Forall (λ c, is_underscore c = false) s →
  from_option is_underscore false prev = false →
  drop_underscores prev s = Some s.
Proof.
  intros Hs. revert prev. induction Hs as [|c s Hc _ IH]; intros prev Hprev; simpl.
  - by rewrite Hprev.
  - rewrite Hc, Hprev. simpl. by rewrite IH.
Qed.

(** [int] on an optional minus sign followed by digits. *)
Lemma int_signed_digits (neg : bool) ds :
  ds ≠ [] → Forall (λ c, isdigit c = true) ds →
  (length ds ≤ int_max_str_digits)%nat →
  int ((if neg then [ch "-"] else []) ++ ds)
  = Ok (if neg then - digits_value ds else digits_value ds).
Proof.
  intros Hne Hds Hlen.
  assert (Hclean : Forall (λ c, c_isspace c = false)
                          ((if neg then [ch "-"] else []) ++ ds)).
  { apply Forall_app. split; [by destruct neg; repeat constructor|].
    eapply Forall_impl; [exact Hds|]. intros c Hc. by apply digit_not_special. }
  assert (Hascii : Forall (λ c, (c <? 128)%N = true)
                          ((if neg then [ch "-"] else []) ++ ds)).
  { apply Forall_app. split; [by destruct neg; repeat constructor|].
    by apply isdigit_ascii. }
  assert (Hund : Forall (λ c, is_underscore c = false)
                        ((if neg then [ch "-"] else []) ++ ds)).
  { apply Forall_app. split; [by destruct neg; repeat constructor|].
    eapply Forall_impl; [exact Hds|]. intros c Hc. by apply digit_not_special. }
  unfold int, int_of_ascii. rewrite to_ascii_ascii by done.
  rewrite strip_class_clean by done.
  rewrite drop_underscores_none by done.
  assert (Hsign : sign ((if neg then [ch "-"] else []) ++ ds) = (neg, ds)).
  { destruct neg; [done|]. destruct ds as [|c ds']; [done|].
    apply Forall_cons in Hds as [Hc _].
    destruct (digit_not_special c Hc) as (_ & _ & _ & Hm & Hp).
    simpl. by rewrite Hm, Hp. }
  rewrite Hsign.
  assert (str_eqb ds [] = false) as ->.
  { destruct ds; [done|]. done. }
  assert (forallb isdigit ds = true) as ->.
  { apply forallb_forall. intros c Hc. rewrite Forall_forall in Hds.
    apply Hds. by apply list_elem_of_In. }
  assert ((int_max_str_digits <? length ds)%nat = false) as ->.
  { apply Nat.ltb_ge. lia. }
  done.
Qed.

(** X1. [text(tag, "num")] never raises and returns an integer; on an
    optional minus sign and at most 4300 digits, with whitespace around, it
    returns the number written. *)
Theorem text_num_reads_integers :
  (∀ tag, ∃ z, text tag dt_num = Ok (VInt z)) ∧
  text None dt_num = Ok (VInt 0) ∧
  (∀ pad1 neg ds pad2,
     Forall (λ c, isspace c = true) pad1 →
     Forall (λ c, isspace c = true) pad2 →
     ds ≠ [] → Forall (λ c, isdigit c = true) ds →
     (length ds ≤ int_max_str_digits)%nat →
     text (Some (padded_integer pad1 neg ds pad2)) dt_num
     = Ok (VInt (if neg then - digits_value ds else digits_value ds))).
Proof.
  split_and!; [apply text_num_total|done|].
  intros pad1 neg ds pad2 Hp1 Hp2 Hne Hds Hlen.
  unfold text, padded_integer. cbn [tag_text].
  assert (strip (pad1 ++ (if neg then [ch "-"] else []) ++ ds ++ pad2)
          = (if neg then [ch "-"] else []) ++ ds) as ->.
  { rewrite (app_assoc _ ds pad2). unfold strip.
    apply strip_class_padded; [done|done|].
    apply Forall_app. split; [by destruct neg; repeat constructor|].
    eapply Forall_impl; [exact Hds|]. intros c Hc. by apply digit_not_special. }
  by rewrite int_signed_digits.
Qed.

Lemma text_num_reads_integers_witness :
  text (Some (padded_integer (chars " ") true (chars "042") (chars "  "))) dt_num
  = Ok (VInt (if true then - digits_value (chars "042") else digits_value (chars "042"))).
Proof.
  apply (proj2 (proj2 text_num_reads_integers)).
  - by repeat constructor.
  - by repeat constructor.
  - done.
  - by repeat constructor.
  - vm_compute. lia.
Defined.

(** X2. [text(tag, "str")] never raises; it returns the empty string for an
    absent node and otherwise the node's text without surrounding
    whitespace, which a second [strip] leaves as it is. *)
Theorem text_str_is_stripped (tag : option Tag) :
  ∃ s, text tag dt_str = Ok (VStr s) ∧ strip s = s ∧
       s = from_option (λ t, strip (tag_text t)) [] tag.
Proof.
  destruct tag as [t|]; simpl.
  - exists (strip (tag_text t)). split_and!; [done|apply strip_idemp|done].
  - by exists [].
Qed.

(** X3. The only exception that leaves [text] is the [OverflowError] of the
    normalizers: it needs a node and the datatype "price" or "size". *)
Theorem text_raises_only_overflow (tag : option Tag) (dt : datatype) (e : exn) :
  text tag dt = Raise e →
  e = OverflowError ∧ is_Some tag ∧ (dt = dt_price ∨ dt = dt_size).
Proof.
  destruct dt, tag as [t|]; simpl; try done.
  - destruct (text_num_total (Some t)) as [z Hz]. simpl in Hz. by rewrite Hz.
  - destruct (convert_returns_or_overflows (strip (tag_text t))) as [[z ->]| ->];
      [done|]. intros [= <-]. split_and!; [done|by eexists|by left].
  - destruct (convert_size_returns_or_overflows (strip (tag_text t))) as [[z ->]| ->];
      [done|]. intros [= <-]. split_and!; [done|by eexists|by right].
Qed.

Lemma text_raises_only_overflow_witness :
  OverflowError = OverflowError ∧ is_Some (Some (tag "1e999")) ∧
  (dt_size = dt_price ∨ dt_size = dt_size).
Proof.
  apply (text_raises_only_overflow (Some (tag "1e999")) dt_size OverflowError).
  by vm_compute.
Defined.

Lemma text_is_int tag v : text tag dt_num = Ok v → is_int v.
Proof.
  destruct (text_num_total tag) as [z ->]. intros [= <-]. by exists z.
Qed.

Lemma text_str_ok tag v : text tag dt_str = Ok v → is_stripped_str v.
Proof.
  destruct tag as [t|]; simpl; intros [= <-].
  - exists (strip (tag_text t)). split; [done|apply strip_idemp].
  - by exists [].
Qed.

Lemma fmap_VInt_Ok (r : Result Z) v : VInt <$> r = Ok v → is_int v.
Proof. destruct r as [z|]; [|done]. intros [= <-]. by exists z. Qed.

(** A listing that is appended has the shape [record_ok]. *)
Lemma listing_of_record_ok house l :
  listing_of house = Ok (Some l) → record_ok l.
Proof.
  unfold listing_of. destruct (sel_price house) as [p|] eqn:Hp; [|done].
  intros H.
  apply bind_Ok_inv in H as (size_tag & _ & H).
  apply bind_Ok_inv in H as (vl & Hl & H).
  apply bind_Ok_inv in H as (vp & Hpr & H).
  apply bind_Ok_inv in H as (vb & Hb & H).
  apply bind_Ok_inv in H as (va & Ha & H).
  apply bind_Ok_inv in H as (vs & Hs & H).
  injection H as <-. unfold record_ok. cbn.
  rewrite extract_additional_features_eq. cbn.
  split_and!.
  - simpl in Hpr. by eapply fmap_VInt_Ok.
  - by eapply text_is_int.
  - by eapply text_is_int.
  - destruct size_tag as [t|]; simpl in Hs.
    + left. by eapply fmap_VInt_Ok.
    + right. by injection Hs as <-.
  - by eapply text_str_ok.
  - destruct (sel_property_type house) as [t|]; simpl;
      eexists; (split; [done|]); [apply strip_idemp|done].
  - destruct (sel_date_added house) as [t|]; simpl;
      eexists; (split; [done|]); [apply strip_idemp|done].
  - destruct (sel_reference house) as [t|]; simpl;
      eexists; (split; [done|]); [apply strip_idemp|done].
Qed.

Lemma process_houses_Forall (P : Listing → Prop) acc houses :
  (∀ h l, listing_of h = Ok (Some l) → P l) →
  Forall P acc → Forall P (process_houses acc houses).
Proof.
  intros HP. unfold process_houses. revert acc.
  induction houses as [|h hs IH]; intros acc Hacc; simpl; [done|].
  apply IH. unfold process_house.
  destruct (listing_of h) as [[l|]|e] eqn:E; try done.
  apply Forall_app. split; [done|]. constructor; [by eapply HP|done].
Qed.

Lemma scrap_Forall (P : Listing → Prop) site pages_range :
  (∀ h l, listing_of h = Ok (Some l) → P l) →
  Forall P (scrap site pages_range).
Proof.
  intros HP. destruct (scrap_run_inv site pages_range) as (_ & -> & _).
  apply Forall_concat, Forall_fmap, Forall_forall. intros p _. simpl.
  unfold page_listings. destruct (site p); try done.
  by apply process_houses_Forall.
Qed.

(** X4. Every record [scrap] returns comes from a listing node with a price
    and has the shape [record_ok]: the price, the bedrooms and the baths are
    integers; the size is an integer or the float [0.0]; the location and
    the additional fields are strings without whitespace around. *)
Theorem scrap_records_are_well_formed (site : Site) (pages_range : Z) :
  Forall record_ok (scrap site pages_range).
Proof. apply scrap_Forall. apply listing_of_record_ok. Qed.

(** X5. A listing with a price, and with a size under the first selector or a
    location, whose price and size do not overflow, is appended to the
    accumulator, and a field whose node is absent has its default: the
    empty string, 0, or the float [0.0] for the size. *)
Theorem priced_listing_appended_with_defaults
    (house : House) (p : Tag) (acc : list Listing) :
  sel_price house = Some p →
  is_Some (sel_size house) ∨ is_Some (sel_location house) →
  convert_price (strip (tag_text p)) ≠ Raise OverflowError →
  (∀ t, size_tag_of house = Some t →
        convert_size (strip (tag_text t)) ≠ Raise OverflowError) →
  ∃ l, listing_of house = Ok (Some l) ∧
       process_house acc house = acc ++ [l] ∧
       (sel_location house = None → location l = VStr []) ∧
       (sel_beds house = None → bedrooms l = VInt 0) ∧
       (sel_baths house = None → baths l = VInt 0) ∧
       (size_tag_of house = None → size l = VFloat (S754_zero false)) ∧
       (sel_property_type house = None → property_type l = VStr []) ∧
       (sel_date_added house = None → date_added l = VStr []) ∧
       (sel_reference house = None → original_listing_id l = VStr []).
Proof. apply listing_of_included. Qed.

Lemma priced_listing_appended_with_defaults_witness :
  ∃ l, listing_of bare_house = Ok (Some l) ∧
       process_house [] bare_house = [] ++ [l] ∧
       (sel_location bare_house = None → location l = VStr []) ∧
       (sel_beds bare_house = None → bedrooms l = VInt 0) ∧
       (sel_baths bare_house = None → baths l = VInt 0) ∧
       (size_tag_of bare_house = None → size l = VFloat (S754_zero false)) ∧
       (sel_property_type bare_house = None → property_type l = VStr []) ∧
       (sel_date_added bare_house = None → date_added l = VStr []) ∧
       (sel_reference bare_house = None → original_listing_id l = VStr []).
Proof.
  apply (priced_listing_appended_with_defaults bare_house (tag "50 Lakh") []).
  - reflexivity.
  - right. by eexists.
  - by vm_compute.
  - intros t Ht. by vm_compute in Ht.
Defined.

Lemma listing_of_raises house e :
  listing_of house = Raise e → dropped house.
Proof.
  intros Hraise. unfold dropped.
  destruct (sel_price house) as [p|] eqn:Hp; [|by left]. right.
  destruct (sel_size house) as [sz|] eqn:Hsz, (sel_location house) as [loc|] eqn:Hloc;
    try (by left).
  all: right.
  all: destruct (convert_price (strip (tag_text p))) as [zp|ep] eqn:Hcp;
    [|left; exists p; split; [done|];
      by destruct (convert_returns_or_overflows (strip (tag_text p)))
        as [[z Hz]|Hz]; congruence].
  all: right.
  all: destruct (size_tag_of house) as [t|] eqn:Ht.
  all: try (destruct (convert_size (strip (tag_text t))) as [zs|es] eqn:Hcs;
    [|exists t; split; [done|];
      by destruct (convert_size_returns_or_overflows (strip (tag_text t)))
        as [[z Hz]|Hz]; congruence]).
  all: exfalso.
  all: destruct (listing_of_included house p []) as (l & Hl & _);
    [done|rewrite ?Hsz, ?Hloc; eauto|congruence| |congruence].
  all: intros t' Ht'; congruence.
Qed.

Lemma listing_of_appended_not_dropped house l :
  listing_of house = Ok (Some l) → ¬ dropped house.
Proof.
  unfold listing_of. destruct (sel_price house) as [p|] eqn:Hp; [|done].
  intros H.
  apply bind_Ok_inv in H as (size_tag & Htag & H).
  apply bind_Ok_inv in H as (vl & _ & H).
  apply bind_Ok_inv in H as (vp & Hpr & H).
  apply bind_Ok_inv in H as (vb & _ & H).
  apply bind_Ok_inv in H as (va & _ & H).
  apply bind_Ok_inv in H as (vs & Hs & _).
  assert (Hst : size_tag = size_tag_of house ∧
                (sel_size house = None → is_Some (sel_location house))).
  { unfold size_tag_of, location_parent_select in *.
    destruct (sel_size house); [by injection Htag as <-|].
    destruct (sel_location house); [|done]. injection Htag as <-. eauto. }
  destruct Hst as [-> Hloc].
  intros [Hnone|[[Hsz Hl]|[(p' & Hp' & Ho)|(t & Ht & Ho)]]].
  - congruence.
  - destruct (Hloc Hsz) as [x Hx]. congruence.
  - rewrite Hp in Hp'. injection Hp' as <-. simpl in Hpr. by rewrite Ho in Hpr.
  - rewrite Ht in Hs. simpl in Hs. by rewrite Ho in Hs.
Qed.

(** X6. The per-listing step appends one record or leaves the accumulator,
    and it leaves it exactly for a node that is [dropped]: no price; no size
    under the first selector and no location to look up the other one from;
    or a price or size text that overflows. *)
Theorem listing_dropped_iff (house : House) (acc : list Listing) :
  (process_house acc house = acc ↔ dropped house) ∧
  (¬ dropped house →
   ∃ l, listing_of house = Ok (Some l) ∧ process_house acc house = acc ++ [l]).
Proof.
  assert (Hcases : dropped house ∧ process_house acc house = acc ∨
                   ¬ dropped house ∧
                   ∃ l, listing_of house = Ok (Some l) ∧
                        process_house acc house = acc ++ [l]).
  { unfold process_house.
    destruct (listing_of house) as [[l|]|e] eqn:Hl.
    - right. split; [by eapply listing_of_appended_not_dropped|by exists l].
    - left. split; [|done]. left.
      destruct (sel_price house) as [p|] eqn:Hp; [|done].
      exfalso. apply (listing_of_priced house); [by rewrite Hp|done].
    - left. split; [by eapply listing_of_raises|done]. }
  destruct Hcases as [[Hd Hp]|[Hd (l & Hl & Hp)]].
  - split; [done|]. intros Hn. by destruct Hn.
  - split; [|by intros _; exists l]. split; [|done].
    rewrite Hp. intros Happ. apply (f_equal length) in Happ.
    rewrite length_app in Happ. simpl in Happ. lia.
Qed.

Lemma listing_dropped_iff_witness :
  ∃ l, listing_of bare_house = Ok (Some l) ∧
       process_house [] bare_house = [] ++ [l].
Proof.
  apply (proj2 (listing_dropped_iff bare_house [])).
  intros [H|[[_ H]|[(p & Hp & H)|(t & Ht & H)]]]; try done.
  injection Hp as <-. by vm_compute in H.
Defined.


(* ===================================================================== *)
(** * Whole numbers in binary64 *)
(* ===================================================================== *)

Lemma digits2_pos_bounds p :
  2 ^ (Zpos (digits2_pos p) - 1) ≤ Zpos p < 2 ^ Zpos (digits2_pos p).
Proof.
  induction p as [p IH|p IH|]; cbn [digits2_pos]; [| |done].
  - rewrite Pos2Z.inj_succ.
    replace (Z.succ (Zpos (digits2_pos p)) - 1) with (Z.succ (Zpos (digits2_pos p) - 1)) by lia.
    rewrite !Z.pow_succ_r by lia. lia.
  - rewrite Pos2Z.inj_succ.
    replace (Z.succ (Zpos (digits2_pos p)) - 1) with (Z.succ (Zpos (digits2_pos p) - 1)) by lia.
    rewrite !Z.pow_succ_r by lia. lia.
Qed.

Lemma Zdigits2_log2 n : 0 < n → Zdigits2 n = Z.log2 n + 1.
Proof.
  destruct n as [|p|p]; [lia| |lia]. intros _. cbn [Zdigits2].
  pose proof (digits2_pos_bounds p) as Hb.
  assert (Z.log2 (Zpos p) = Zpos (digits2_pos p) - 1) as Hlog; [|lia].
  apply Z.log2_unique; [lia|].
  by replace (Z.succ (Zpos (digits2_pos p) - 1)) with (Zpos (digits2_pos p)) by lia.
Qed.

Lemma Zdigits2_shift n k : 0 < n → 0 ≤ k → Zdigits2 (n * 2 ^ k) = Zdigits2 n + k.
Proof.
  intros Hn Hk. rewrite !Zdigits2_log2 by lia.
  rewrite Z.log2_mul_pow2 by lia. lia.
Qed.

Lemma Zdigits2_bound n : 0 < n → n < 2 ^ prec → 1 ≤ Zdigits2 n ≤ prec.
Proof.
  intros Hn Hlt. rewrite Zdigits2_log2 by done.
  pose proof (Z.log2_nonneg n). split; [lia|].
  assert (Z.log2 n < prec); [|lia]. by apply Z.log2_lt_pow2.
Qed.

Lemma iter_pos_iter {A} (f : A → A) p x : SpecFloat.iter_pos f p x = Pos.iter f x p.
Proof.
  revert x. induction p as [p IH|p IH|]; intros x; simpl; [|by rewrite !IH|done].
  by rewrite !IH, <- !Pos.iter_swap.
Qed.

Lemma shr_1_even m :
  0 < m →
  shr_1 {| shr_m := 2 * m; shr_r := false; shr_s := false |} =
  {| shr_m := m; shr_r := false; shr_s := false |}.
Proof. by destruct m. Qed.

Lemma iter_shr_1_shifted m p :
  0 < m →
  SpecFloat.iter_pos shr_1 p
    {| shr_m := m * 2 ^ Zpos p; shr_r := false; shr_s := false |} =
  {| shr_m := m; shr_r := false; shr_s := false |}.
Proof.
  intros Hm. rewrite iter_pos_iter. revert m Hm.
  induction p as [|p IH] using Pos.peano_ind; intros m Hm.
  - simpl. replace (m * 2 ^ 1) with (2 * m) by lia. by apply shr_1_even.
  - rewrite Pos.iter_succ, <- Pos.iter_swap, Pos2Z.inj_succ, Z.pow_succ_r by lia.
    replace (m * (2 * 2 ^ Zpos p)) with (2 * (m * 2 ^ Zpos p)) by lia.
    rewrite shr_1_even by lia. by apply IH.
Qed.

(** A mantissa [n * 2^k] with exponent [-k]: rounding is exact. *)
Lemma binary_round_aux_whole s n k :
  0 < n → n < 2 ^ prec → 0 ≤ k → prec - Zdigits2 n ≤ k →
  binary_round_aux prec emax s (n * 2 ^ k) (- k) loc_Exact = float_of_whole s n.
Proof.
  intros Hn Hlt Hk Hshift. pose proof (Zdigits2_bound n Hn Hlt) as Hd.
  set (d := Zdigits2 n) in *.
  assert (Hfexp : fexp prec emax d = d - prec).
  { unfold fexp, SpecFloat.emin, prec, emax in *. lia. }
  assert (Hfirst : shr_fexp prec emax (n * 2 ^ k) (- k) loc_Exact =
          ({| shr_m := n * 2 ^ (prec - d); shr_r := false; shr_s := false |}, d - prec)).
  { unfold shr_fexp. rewrite Zdigits2_shift by done. fold d.
    replace (d + k + - k) with d by lia. rewrite Hfexp.
    cbn [shr_record_of_loc]. unfold shr.
    destruct (d - prec - - k) as [|q|q] eqn:Eq.
    - replace k with (prec - d) by lia. f_equal. lia.
    - replace (n * 2 ^ k) with (n * 2 ^ (prec - d) * 2 ^ Zpos q).
      + rewrite iter_shr_1_shifted; [f_equal; lia|].
        apply Z.mul_pos_pos; [done|]. apply Z.pow_pos_nonneg; lia.
      + rewrite <- Z.mul_assoc, <- Z.pow_add_r by lia. do 2 f_equal. lia.
    - lia. }
  assert (Hpos : 0 < n * 2 ^ (prec - d)).
  { apply Z.mul_pos_pos; [done|]. apply Z.pow_pos_nonneg; lia. }
  assert (Hsecond : shr_fexp prec emax (n * 2 ^ (prec - d)) (d - prec) loc_Exact =
          ({| shr_m := n * 2 ^ (prec - d); shr_r := false; shr_s := false |}, d - prec)).
  { unfold shr_fexp. rewrite Zdigits2_shift by lia. fold d.
    replace (d + (prec - d) + (d - prec)) with d by lia. rewrite Hfexp.
    by rewrite Z.sub_diag. }
  unfold binary_round_aux. rewrite Hfirst.
  cbn [shr_m loc_of_shr_record round_nearest_even]. rewrite Hsecond. cbn [shr_m].
  unfold float_of_whole. fold d.
  destruct (n * 2 ^ (prec - d)) as [|q|q] eqn:Eq; [lia| |lia].
  assert ((d - prec <=? emax - prec) = true) as ->.
  { apply Z.leb_le. unfold emax, prec in *. lia. }
  done.
Qed.

Lemma iter_xO_shift p q : Zpos (Pos.iter xO p q) = Zpos p * 2 ^ Zpos q.
Proof.
  induction q as [|q IH] using Pos.peano_ind; [simpl; lia|].
  rewrite Pos.iter_succ, Pos2Z.inj_succ, Z.pow_succ_r by lia.
  rewrite Pos2Z.inj_xO, IH. lia.
Qed.

Lemma binary_round_whole s p :
  Zpos p < 2 ^ prec → binary_round prec emax s p 0 = float_of_whole s (Zpos p).
Proof.
  intros Hlt. pose proof (Zdigits2_bound (Zpos p) ltac:(lia) Hlt) as Hd.
  cbn [Zdigits2] in Hd. unfold binary_round, shl_align.
  rewrite Z.add_0_r.
  assert (Hfexp : fexp prec emax (Zpos (digits2_pos p)) = Zpos (digits2_pos p) - prec).
  { unfold fexp, SpecFloat.emin, prec, emax in *. lia. }
  rewrite Hfexp, Z.sub_0_r.
  destruct (Zpos (digits2_pos p) - prec) as [|q|q] eqn:Eq.
  - rewrite <- (binary_round_aux_whole s (Zpos p) 0); cbn [Zdigits2]; [|lia..].
    by rewrite Z.mul_1_r.
  - lia.
  - rewrite iter_xO_shift.
    rewrite <- (binary_round_aux_whole s (Zpos p) (Zpos q)); cbn [Zdigits2]; [|lia..].
    done.
Qed.

Lemma float_of_int_whole n :
  0 < n → n < 2 ^ prec → float_of_int n = float_of_whole false n.
Proof.
  intros Hn Hlt. destruct n as [|p|p]; [lia| |lia].
  by apply binary_round_whole.
Qed.

Lemma float_of_whole_mantissa s n :
  0 < n → n < 2 ^ prec →
  ∃ m, float_of_whole s n = S754_finite s m (Zdigits2 n - prec) ∧
       Zpos m = n * 2 ^ (prec - Zdigits2 n).
Proof.
  intros Hn Hlt. pose proof (Zdigits2_bound n Hn Hlt) as Hd.
  eexists. split; [reflexivity|]. rewrite Z2Pos.id; [done|].
  apply Z.mul_pos_pos; [done|]. apply Z.pow_pos_nonneg; lia.
Qed.

Lemma float_mul_whole a b :
  0 < a → 0 < b → a * b < 2 ^ prec →
  float_mul (float_of_whole false a) (float_of_whole false b) =
  float_of_whole false (a * b).
Proof.
  intros Ha Hb Hab.
  assert (Halt : a < 2 ^ prec) by nia.
  assert (Hblt : b < 2 ^ prec) by nia.
  destruct (float_of_whole_mantissa false a Ha Halt) as (ma & -> & Hma).
  destruct (float_of_whole_mantissa false b Hb Hblt) as (mb & -> & Hmb).
  pose proof (Zdigits2_bound a Ha Halt) as Hda.
  pose proof (Zdigits2_bound b Hb Hblt) as Hdb.
  unfold float_mul, SFmul. cbn [xorb].
  rewrite Pos2Z.inj_mul, Hma, Hmb.
  set (k := (prec - Zdigits2 a) + (prec - Zdigits2 b)).
  replace (a * 2 ^ (prec - Zdigits2 a) * (b * 2 ^ (prec - Zdigits2 b)))
    with (a * b * 2 ^ k).
  2:{ unfold k. rewrite Z.pow_add_r by lia. lia. }
  replace (Zdigits2 a - prec + (Zdigits2 b - prec)) with (- k) by (unfold k; lia).
  apply binary_round_aux_whole; [lia|done|unfold k; lia|].
  unfold k. rewrite !Zdigits2_log2 by lia.
  pose proof (Z.log2_mul_below a b Ha Hb). unfold prec. lia.
Qed.

Lemma round_whole s n :
  0 < n → n < 2 ^ prec →
  round (float_of_whole s n) = Ok (if s then - n else n).
Proof.
  intros Hn Hlt. pose proof (Zdigits2_bound n Hn Hlt) as Hd.
  destruct (float_of_whole_mantissa s n Hn Hlt) as (m & -> & Hm).
  unfold round. rewrite Hm.
  destruct (Zdigits2 n - prec) as [|q|q] eqn:Eq.
  - replace (prec - Zdigits2 n) with 0 by lia. by rewrite !Z.mul_1_r.
  - lia.
  - replace (prec - Zdigits2 n) with (Zpos q) by lia.
    assert (0 < 2 ^ Zpos q) as Hpow by (apply Z.pow_pos_nonneg; lia).
    unfold div_half_even.
    rewrite Z.div_mul, Z.mod_mul by lia.
    assert ((2 * 0 ?= 2 ^ Zpos q) = Lt) as ->; [|done].
    apply Z.compare_lt_iff. lia.
Qed.

(* ===================================================================== *)
(** * Whole numbers through [float] and the normalizers *)
(* ===================================================================== *)

Lemma lower_digit c : isdigit c = true → lower c = c.
Proof.
  intros H. pose proof (isdigit_bound c H) as Hc. revert H. by_ascii_cases c Hc.
Qed.

Lemma span_all p s : Forall (λ c, p c = true) s → span p s = (s, []).
Proof. induction 1 as [|c s Hc _ IH]; simpl; [done|]. by rewrite Hc, IH. Qed.

(** [float] on a string of digits. *)
Lemma float_digits ds :
  ds ≠ [] → Forall (λ c, isdigit c = true) ds →
  float ds = Ok match digits_value ds with
                | Zpos p => binary_round prec emax false p 0
                | _ => S754_zero false
                end.
Proof.
  intros Hne Hds.
  assert (Hclean : Forall (λ c, c_isspace c = false) ds).
  { eapply Forall_impl; [exact Hds|]. intros c Hc. by apply digit_not_special. }
  assert (Hund : Forall (λ c, is_underscore c = false) ds).
  { eapply Forall_impl; [exact Hds|]. intros c Hc. by apply digit_not_special. }
  unfold float, float_of_ascii. rewrite to_ascii_ascii by (by apply isdigit_ascii).
  rewrite strip_class_clean by done.
  rewrite drop_underscores_none by done.
  destruct ds as [|c ds]; [done|]. apply Forall_cons in Hds as Hcds.
  destruct Hcds as [Hc Hrest].
  destruct (digit_not_special c Hc) as (_ & _ & _ & Hminus & Hplus).
  unfold float_literal, sign. rewrite Hminus, Hplus.
  assert (Hword : ∀ w, head w ≠ Some c → str_eqb (map lower (c :: ds)) w = false).
  { intros w Hw. destruct (str_eqb _ w) eqn:E; [|done].
    apply str_eqb_eq in E. subst w. simpl in Hw. by rewrite lower_digit in Hw. }
  rewrite !Hword; cycle 1.
  { intros [= <-]. by vm_compute in Hc. }
  { intros [= <-]. by vm_compute in Hc. }
  { intros [= <-]. by vm_compute in Hc. }
  cbn [orb]. unfold decimal_literal. rewrite (span_all isdigit (c :: ds)) by done.
  rewrite app_nil_r. cbn [length Z.of_nat Z.opp].
  assert (str_eqb (c :: ds) [] = false) as ->.
  { destruct (str_eqb _ _) eqn:E; [|done]. by apply str_eqb_eq in E. }
  unfold float_of_decimal. destruct (digits_value (c :: ds)) as [|p|p]; [done| |done].
  by rewrite Pos.mul_1_r.
Qed.

Lemma digit_value_nonneg c : isdigit c = true → 0 ≤ digit_value c.
Proof.
  unfold isdigit, digit_value. intros [H%N.leb_le _]%andb_prop. lia.
Qed.

Lemma digits_value_nonneg ds :
  Forall (λ c, isdigit c = true) ds → 0 ≤ digits_value ds.
Proof.
  unfold digits_value. intros Hds.
  assert (∀ a, 0 ≤ a → 0 ≤ fold_left (λ acc c, 10 * acc + digit_value c) ds a) as H;
    [|by apply H].
  induction Hds as [|c ds Hc _ IH]; intros a Ha; [done|].
  simpl. apply IH. pose proof (digit_value_nonneg c Hc). lia.
Qed.

(** What the normalizers compute from a string of digits and a multiplier. *)
Lemma whole_number_scaled ds mult :
  ds ≠ [] → Forall (λ c, isdigit c = true) ds →
  0 < mult < 2 ^ prec → digits_value ds * mult < 2 ^ prec →
  ∃ x, float ds = Ok x ∧ is_nan x = false ∧
       nearest_integer (scale x mult) = Some (digits_value ds * mult).
Proof.
  intros Hne Hds [Hmult Hm] Hlt. pose proof (digits_value_nonneg ds Hds) as Hn.
  rewrite float_digits by done.
  destruct (digits_value ds) as [|p|p] eqn:Ep; [| |lia].
  - exists (S754_zero false). split_and!; [done..|].
    unfold scale. case_decide; [done|].
    rewrite (float_of_int_whole mult) by done.
    by destruct (float_of_whole_mantissa false mult Hmult Hm) as (m & -> & _).
  - assert (Zpos p < 2 ^ prec) as Hp by nia.
    exists (float_of_whole false (Zpos p)).
    split_and!; [by rewrite binary_round_whole|done|].
    unfold scale, nearest_integer. case_decide as Hone.
    + subst mult. rewrite round_whole by lia. by rewrite Z.mul_1_r.
    + rewrite (float_of_int_whole mult) by done.
      rewrite float_mul_whole by lia. by rewrite round_whole by lia.
Qed.

Lemma whole_number_parts num :
  is_whole_number num = true →
  Forall (λ c, isspace c = false) num ∧
  remove_commas num ≠ [] ∧
  Forall (λ c, isdigit c = true) (remove_commas num) ∧
  ∃ d, last num = Some d ∧ (isdigit d || (d =? ch ",")%N) = true.
Proof.
  unfold is_whole_number. intros H. apply andb_true_iff in H as [Hall Hne].
  apply Is_true_true, forallb_True in Hall.
  assert (Hne' : remove_commas num ≠ []).
  { intros E. rewrite E in Hne. by vm_compute in Hne. }
  split_and!; [|done| |].
  - eapply Forall_impl; [exact Hall|]. intros c Hc.
    apply Is_true_true, orb_prop in Hc as [Hc|Hc].
    + by apply digit_not_special.
    + apply N.eqb_eq in Hc as ->. by vm_compute.
  - unfold remove_commas. clear Hne Hne'.
    induction Hall as [|c num Hc _ IH]; [done|]. simpl.
    apply Is_true_true in Hc.
    destruct ((c =? ch ",")%N) eqn:E; simpl; [done|].
    constructor; [|done]. by rewrite orb_false_r in Hc.
  - destruct (last num) as [d|] eqn:El.
    + exists d. split; [done|]. apply Is_true_true.
      rewrite Forall_forall in Hall. apply Hall.
      apply last_Some in El as [front ->]. apply elem_of_app. right. by left.
    + apply last_None in El. by subst num.
Qed.

Lemma endswith_last s x d :
  endswith s x = true → last x = Some d → last s = Some d.
Proof.
  intros Hends Hlast. apply endswith_app in Hends as [front ->].
  rewrite last_app. by rewrite Hlast.
Qed.

(** A string that ends with a digit or a comma ends with no unit. *)
Lemma whole_number_no_unit units s d :
  units = price_units ∨ units = size_units →
  last s = Some d → (isdigit d || (d =? ch ",")%N) = true →
  find (λ u, endswith s (chars u.1)) units = None.
Proof.
  intros Hunits Hlast Hd.
  assert (Hno : ∀ suffix,
            match last (chars suffix) with
            | Some d' => negb (isdigit d' || (d' =? ch ",")%N)
            | None => false
            end = true →
            endswith s (chars suffix) = false).
  { intros suffix Hsuffix. destruct (endswith s (chars suffix)) eqn:E; [|done].
    destruct (last (chars suffix)) as [d'|] eqn:Hl'; [|done].
    rewrite (endswith_last _ _ _ E Hl') in Hlast. injection Hlast as ->.
    by rewrite Hd in Hsuffix. }
  destruct Hunits as [-> | ->]; unfold price_units, size_units; cbn [find fst].
  - by rewrite !Hno by reflexivity.
  - by rewrite !Hno by reflexivity.
Qed.

(** The table-driven normalizer on a whole number, alone or with a unit. *)
Lemma normalize_whole_plain units pad1 num pad2 :
  units = price_units ∨ units = size_units →
  is_whole_number num = true →
  digits_value (remove_commas num) < 2 ^ prec →
  Forall (λ c, isspace c = true) pad1 →
  Forall (λ c, isspace c = true) pad2 →
  normalize units (pad1 ++ num ++ pad2) = Some (digits_value (remove_commas num)).
Proof.
  intros Hunits Hnum Hlt Hpad1 Hpad2.
  destruct (whole_number_parts num Hnum) as (Hclean & Hne & Hds & d & Hlast & Hd).
  destruct (whole_number_scaled (remove_commas num) 1) as (x & Hf & Hx & Hr);
    [done|done|by vm_compute|lia|].
  unfold normalize, strip. rewrite strip_class_padded by done.
  destruct (str_eqb num []) eqn:E.
  { apply str_eqb_eq in E. by subst num. }
  rewrite (whole_number_no_unit units num d) by done.
  unfold parse_number. rewrite Hf, Hx, Hr. f_equal. lia.
Qed.

Lemma normalize_whole_unit units pad1 num gap suffix mult pad2 :
  (∀ front, find (λ u, endswith (front ++ chars suffix) (chars u.1)) units
            = Some (suffix, mult)) →
  (∃ d, last (chars suffix) = Some d ∧ isspace d = false) →
  is_whole_number num = true →
  0 < mult < 2 ^ prec → digits_value (remove_commas num) * mult < 2 ^ prec →
  Forall (λ c, isspace c = true) pad1 →
  Forall (λ c, isspace c = true) gap →
  Forall (λ c, isspace c = true) pad2 →
  normalize units (pad1 ++ num ++ gap ++ chars suffix ++ pad2)
  = Some (digits_value (remove_commas num) * mult).
Proof.
  intros Hfind Hsuffix Hnum Hmult Hlt Hpad1 Hgap Hpad2.
  destruct (whole_number_parts num Hnum) as (Hclean & Hne & Hds & _).
  destruct (whole_number_scaled (remove_commas num) mult) as (x & Hf & Hx & Hr);
    [done..|].
  rewrite (normalize_number_unit units pad1 num gap suffix mult pad2 x); try done.
  by apply strip_class_clean.
Qed.

Lemma unit_multiplier_positive row :
  row ∈ price_units ++ size_units → 0 < row.2 < 2 ^ prec.
Proof.
  unfold price_units, size_units. cbn [app]. intros Hrow.
  repeat (apply elem_of_cons in Hrow as [->|Hrow]; [done|]).
  by apply elem_of_nil in Hrow.
Qed.

(** X7. Whole prices are exact. A price written with digits and thousands
    separators, alone or followed by a unit of the table, converts to
    exactly the number, times the multiplier, as long as the result is
    below 2^53: the binary64 arithmetic of the code loses nothing there. *)
Theorem whole_prices_convert_exactly (pad1 num gap pad2 : str) :
  is_whole_number num = true →
  Forall (λ c, isspace c = true) pad1 →
  Forall (λ c, isspace c = true) gap →
  Forall (λ c, isspace c = true) pad2 →
  (digits_value (remove_commas num) < 2 ^ 53 →
   convert_price (pad1 ++ num ++ pad2) = Ok (digits_value (remove_commas num))) ∧
  (∀ suffix mult,
     (suffix, mult) ∈ price_units →
     digits_value (remove_commas num) * mult < 2 ^ 53 →
     convert_price (pad1 ++ num ++ gap ++ chars suffix ++ pad2)
     = Ok (digits_value (remove_commas num) * mult)).
Proof.
  intros Hnum Hpad1 Hgap Hpad2. split.
  - intros Hlt. rewrite convert_price_normalize. unfold normalizePrice.
    rewrite normalize_whole_plain; [done|by left|done..].
  - intros suffix mult Hrow Hlt.
    rewrite convert_price_normalize. unfold normalizePrice.
    destruct (price_unit_found [] _ Hrow) as [_ Hlast].
    rewrite (normalize_whole_unit price_units pad1 num gap suffix mult pad2);
      try done.
    + intros front. by destruct (price_unit_found front _ Hrow).
    + apply (unit_multiplier_positive (suffix, mult)).
      apply elem_of_app. by left.
Qed.

Lemma whole_prices_convert_exactly_witness :
  convert_price (chars " 12,500,000 ") = Ok 12500000 ∧
  convert_price (chars " 125 Lakh ") = Ok 12500000.
Proof.
  split.
  - apply (proj1 (whole_prices_convert_exactly
                    (chars " ") (chars "12,500,000") [] (chars " ")
                    eq_refl ltac:(by repeat constructor)
                    ltac:(by repeat constructor) ltac:(by repeat constructor))).
    by vm_compute.
  - apply (proj2 (whole_prices_convert_exactly
                    (chars " ") (chars "125") (chars " ") (chars " ")
                    eq_refl ltac:(by repeat constructor)
                    ltac:(by repeat constructor) ltac:(by repeat constructor))
             "Lakh"%string 100000).
    + right. by left.
    + by vm_compute.
Defined.

(** X8. Whole sizes are exact: a size written with digits and thousands
    separators, alone or followed by a unit of the table, converts to
    exactly the number times the unit's square feet, below 2^53. *)
Theorem whole_sizes_convert_exactly (pad1 num gap pad2 : str) :
  is_whole_number num = true →
  Forall (λ c, isspace c = true) pad1 →
  Forall (λ c, isspace c = true) gap →
  Forall (λ c, isspace c = true) pad2 →
  (digits_value (remove_commas num) < 2 ^ 53 →
   convert_size (pad1 ++ num ++ pad2) = Ok (digits_value (remove_commas num))) ∧
  (∀ suffix mult,
     (suffix, mult) ∈ size_units →
     digits_value (remove_commas num) * mult < 2 ^ 53 →
     convert_size (pad1 ++ num ++ gap ++ chars suffix ++ pad2)
     = Ok (digits_value (remove_commas num) * mult)).
Proof.
  intros Hnum Hpad1 Hgap Hpad2. split.
  - intros Hlt. rewrite convert_size_normalize. unfold normalizeSize.
    rewrite normalize_whole_plain; [done|by right|done..].
  - intros suffix mult Hrow Hlt.
    rewrite convert_size_normalize. unfold normalizeSize.
    destruct (size_unit_found [] _ Hrow) as [_ Hlast].
    rewrite (normalize_whole_unit size_units pad1 num gap suffix mult pad2);
      try done.
    + intros front. by destruct (size_unit_found front _ Hrow).
    + apply (unit_multiplier_positive (suffix, mult)).
      apply elem_of_app. by right.
Qed.

Lemma whole_sizes_convert_exactly_witness :
  convert_size (chars "1,200") = Ok 1200 ∧
  convert_size (chars "10 Marla") = Ok 2250.
Proof.
  split.
  - apply (proj1 (whole_sizes_convert_exactly
                    [] (chars "1,200") [] []
                    eq_refl ltac:(by repeat constructor)
                    ltac:(by repeat constructor) ltac:(by repeat constructor))).
    by vm_compute.
  - apply (proj2 (whole_sizes_convert_exactly
                    [] (chars "10") (chars " ") []
                    eq_refl ltac:(by repeat constructor)
                    ltac:(by repeat constructor) ltac:(by repeat constructor))
             "Marla"%string 225).
    + by left.
    + by vm_compute.
Defined.

(* ===================================================================== *)
(** * Whitespace around the input of the normalizers *)
(* ===================================================================== *)

Lemma strip_class_pad p a s b :
  Forall (λ c, p c = true) a → Forall (λ c, p c = true) b →
  strip_class p (a ++ s ++ b) = strip_class p s.
Proof.
  intros Ha Hb.
  destruct (strip_class_decompose p s) as (a' & b' & Hs & Ha' & Hb').
  rewrite Hs at 1.
  replace (a ++ (a' ++ strip_class p s ++ b') ++ b)
    with ((a ++ a') ++ strip_class p s ++ (b' ++ b))
    by (by rewrite <- !app_assoc).
  assert (Haa : Forall (λ c, p c = true) (a ++ a')) by (by apply Forall_app).
  assert (Hbb : Forall (λ c, p c = true) (b' ++ b)) by (by apply Forall_app).
  destruct (strip_class_result p s) as [Hnil|(c & d & Hh & Hc & Hl & Hd)].
  - rewrite Hnil. cbn [app]. unfold strip_class.
    rewrite <- (app_nil_r ((a ++ a') ++ b' ++ b)).
    rewrite drop_while_app_all; [done|]. by rewrite Forall_app.
  - by apply (strip_class_ends p _ _ _ c d).
Qed.

Lemma normalize_pad units pad1 s pad2 :
  Forall (λ c, isspace c = true) pad1 →
  Forall (λ c, isspace c = true) pad2 →
  normalize units (pad1 ++ s ++ pad2) = normalize units s.
Proof.
  intros H1 H2. unfold normalize, strip. by rewrite strip_class_pad.
Qed.

(** X9. Whitespace before and after the input never changes what the
    normalizers return or raise, although the emptiness test comes before
    the [strip]. *)
Theorem normalizers_ignore_padding (pad1 s pad2 : str) :
  Forall (λ c, isspace c = true) pad1 →
  Forall (λ c, isspace c = true) pad2 →
  convert_price (pad1 ++ s ++ pad2) = convert_price s ∧
  convert_size (pad1 ++ s ++ pad2) = convert_size s.
Proof.
  intros H1 H2. rewrite !convert_price_normalize, !convert_size_normalize.
  unfold normalizePrice, normalizeSize. by rewrite !normalize_pad.
Qed.

Lemma normalizers_ignore_padding_witness :
  convert_price (chars "  " ++ chars "1.5 Crore" ++ chars " ")
    = convert_price (chars "1.5 Crore") ∧
  convert_size (chars "  " ++ chars "1.5 Crore" ++ chars " ")
    = convert_size (chars "1.5 Crore").
Proof.
  apply (normalizers_ignore_padding (chars "  ") (chars "1.5 Crore") (chars " "));
    by repeat constructor.
Defined.


(* ===================================================================== *)
(** * Further properties of [scrap] *)
(* ===================================================================== *)

Section Pagination.

Variable site : Site.

Lemma not_failure_not_stops_parsed p :
  is_failure site p = false → ¬ stops site p →
  is_parsed_page site p = true ∧ page_listings site p ≠ [].
Proof.
  unfold is_failure, stops, is_empty_page, is_parsed_page.
  destruct (site p) as [?| |?|m t]; try done.
  destruct (house_list_of m t) eqn:E; intros _ Hs.
  - destruct Hs. by left.
  - split; [done|]. intros Hl. destruct Hs. by right.
Qed.

(** With no page that stops and no three failures in a row before the last
    page, the loop requests every page. *)
Lemma scrap_loop_all hi :
  (∀ p, 1 ≤ p ≤ hi → ¬ stops site p) →
  (∀ p, 1 ≤ p → p + 3 ≤ hi →
        ¬ (is_failure site p = true ∧ is_failure site (p + 1) = true ∧
           is_failure site (p + 2) = true)) →
  ∀ (len : nat) m st,
    m + Z.of_nat len = hi + 1 → 1 ≤ m →
    0 ≤ consecutive_errors st →
    (∀ j, 1 ≤ j ≤ consecutive_errors st →
          1 ≤ m - j ∧ is_failure site (m - j) = true) →
    requests (scrap_loop site (seqZ m (Z.of_nat len)) st) =
    requests st ++ seqZ m (Z.of_nat len).
Proof.
  intros Hns Hw. induction len as [|len IH]; intros m st Hm H1 Hc Hprev.
  { simpl. by rewrite app_nil_r. }
  rewrite seqZ_cons by lia.
  replace (Z.pred (Z.of_nat (S len))) with (Z.of_nat len) by lia.
  assert (Hlt : consecutive_errors st < max_consecutive_errors).
  { unfold max_consecutive_errors.
    destruct (decide (consecutive_errors st < 3)) as [|Hge]; [done|].
    exfalso. apply (Hw (m - 3)).
    - apply (Hprev 3). lia.
    - lia.
    - split_and!.
      + apply (Hprev 3). lia.
      + replace (m - 3 + 1) with (m - 2) by lia. apply (Hprev 2). lia.
      + replace (m - 3 + 2) with (m - 1) by lia. apply (Hprev 1). lia. }
  rewrite scrap_loop_cons by done.
  destruct (is_failure site m) eqn:Hf.
  - rewrite page_body_failure by done.
    rewrite IH; cbn [requests consecutive_errors]; [by rewrite <- app_assoc|lia..| ].
    intros j Hj. destruct (decide (j = 1)) as [->|Hne].
    + replace (Z.succ m - 1) with m by lia. split; [lia|done].
    + replace (Z.succ m - j) with (m - (j - 1)) by lia. apply Hprev. lia.
  - destruct (not_failure_not_stops_parsed m Hf) as [Hp Hl]; [apply Hns; lia|].
    pose proof (page_body_break site m st) as Hb.
    pose proof (page_body_requests site m st) as Hr.
    pose proof (page_body_parsed_errors site m st Hp) as Hz.
    destruct (page_body site m st) as [[] st']; simpl in Hb, Hr, Hz.
    + rewrite IH, Hr; [by rewrite <- app_assoc|lia..| ].
      intros j Hj. lia.
    + exfalso. apply (Hns m); [lia|]. by apply Hb.
Qed.

End Pagination.

(** X10. The pages are requested in order, from page 1, without a gap or a
    repeat, and never beyond [pages_range]; the result is what the requested
    pages yield, in page order, and nothing else. With [pages_range <= 0]
    nothing is requested and the result is empty. *)
Theorem requests_are_an_initial_range (site : Site) (pages_range : Z) :
  (∃ k, 0 ≤ k ≤ Z.max 0 pages_range ∧
        requests (scrap_run site pages_range) = seqZ 1 k ∧
        scrap site pages_range = concat (page_listings site <$> seqZ 1 k)) ∧
  (pages_range ≤ 0 →
   requests (scrap_run site pages_range) = [] ∧ scrap site pages_range = []).
Proof.
  destruct (scrap_run_inv site pages_range) as (Hpre & Hacc & _).
  apply prefix_seqZ in Hpre as Hk.
  apply prefix_length in Hpre. unfold page_range in Hpre. rewrite length_seqZ in Hpre.
  split.
  - exists (Z.of_nat (length (requests (scrap_run site pages_range)))).
    split_and!; [lia|lia|done|]. by rewrite Hacc, <- Hk.
  - intros Hn. assert (requests (scrap_run site pages_range) = []) as Hnil.
    { apply nil_length_inv. lia. }
    split; [done|]. by rewrite Hacc, Hnil.
Qed.

Lemma requests_are_an_initial_range_witness :
  requests (scrap_run site_outage (-2)) = [] ∧ scrap site_outage (-2) = [].
Proof.
  apply (proj2 (requests_are_an_initial_range site_outage (-2))). lia.
Defined.

(** X11. Pagination stops for three reasons only. When no page of
    [1 .. pages_range] is empty or without a new listing, and no three
    pages in a row fail before the last page, every page is requested and
    the result is what all the pages yield, in order; failures of one or two
    pages in a row are skipped over. *)
Theorem pagination_reaches_last_page (site : Site) (pages_range : Z) :
  (∀ p, 1 ≤ p ≤ pages_range → ¬ stops site p) →
  (∀ p, 1 ≤ p → p + 3 ≤ pages_range →
        ¬ (is_failure site p = true ∧ is_failure site (p + 1) = true ∧
           is_failure site (p + 2) = true)) →
  requests (scrap_run site pages_range) = seqZ 1 pages_range ∧
  scrap site pages_range = concat (page_listings site <$> seqZ 1 pages_range).
Proof.
  intros Hns Hw.
  assert (Hr : requests (scrap_run site pages_range) = seqZ 1 pages_range).
  { destruct (decide (0 ≤ pages_range)) as [Hn|Hn].
    - unfold scrap_run, page_range.
      rewrite <- (Z2Nat.id pages_range) at 1 2 by done.
      rewrite (scrap_loop_all site pages_range Hns Hw); simpl; [done|lia..| ].
      intros j Hj. lia.
    - destruct (scrap_run_inv site pages_range) as (Hpre & _).
      unfold page_range in Hpre. rewrite seqZ_nil in Hpre |- * by lia.
      by apply prefix_nil_inv. }
  split; [done|]. destruct (scrap_run_inv site pages_range) as (_ & Hacc & _).
  by rewrite Hacc, Hr.
Qed.

Lemma pagination_reaches_last_page_witness :
  requests (scrap_run site_flaky 6) = seqZ 1 6 ∧
  scrap site_flaky 6 = concat (page_listings site_flaky <$> seqZ 1 6).
Proof.
  apply (pagination_reaches_last_page site_flaky 6).
  - intros p Hp.
    assert (p = 1 ∨ p = 2 ∨ p = 3 ∨ p = 4 ∨ p = 5 ∨ p = 6) as Hcase by lia.
    unfold stops.
    destruct Hcase as [->|[->|[->|[->|[->| ->]]]]]; vm_compute;
      intros [?|[? ?]]; done.
  - intros p H1 H2.
    assert (p = 1 ∨ p = 2 ∨ p = 3) as Hcase by lia.
    destruct Hcase as [->|[->| ->]]; vm_compute; intros (? & ? & ?); done.
Defined.


(* ===================================================================== *)
(** * Further properties of the per-city loop *)
(* ===================================================================== *)

Section Run.

Variable max_pages : Z.
Variable world : World.

Lemma process_city_entry city w r :
  city_stats (process_city max_pages city w r) =
  <[city_name city := entry_of max_pages w]> (city_stats r).
Proof.
  unfold process_city, entry_of, raises. destruct (scrap_fault w); [done|].
  destruct (scrap (site w) max_pages); [done|].
  destruct (json_upload_fault w); [done|]. by destruct (csv_upload_fault w).
Qed.

Lemma process_city_listed city w r :
  total_listings (process_city max_pages city w r) =
  total_listings r + listed max_pages w.
Proof.
  unfold process_city, listed. destruct (scrap_fault w); simpl; [lia|].
  destruct (scrap (site w) max_pages); simpl; [lia|].
  destruct (json_upload_fault w); [done|]. by destruct (csv_upload_fault w).
Qed.

Lemma process_cities_listed i cs r :
  total_listings (process_cities max_pages world i cs r) =
  total_listings r +
  foldr Z.add 0 ((λ j, listed max_pages (world j)) <$> seq i (length cs)).
Proof.
  revert i r. induction cs as [|c cs IH]; intros i r.
  - simpl. lia.
  - simpl. rewrite IH, process_city_listed. unfold fmap. lia.
Qed.

Lemma process_cities_dom i cs r :
  dom (city_stats (process_cities max_pages world i cs r)) =
  dom (city_stats r) ∪ list_to_set (city_name <$> cs).
Proof.
  revert i r. induction cs as [|c cs IH]; intros i r; simpl.
  - by rewrite (right_id_L ∅ (∪)).
  - rewrite IH, process_city_entry, dom_insert_L.
    by rewrite (comm_L (∪) {[city_name c]}), (assoc_L (∪)).
Qed.

Lemma process_cities_entry i cs r k c :
  NoDup (city_name <$> cs) → cs !! k = Some c →
  city_stats (process_cities max_pages world i cs r) !! city_name c =
  Some (entry_of max_pages (world (i + k)%nat)).
Proof.
  revert i r k. induction cs as [|c0 cs IH]; intros i r k Hnd Hk; [done|].
  rewrite fmap_cons in Hnd. apply NoDup_cons in Hnd as [Hc0 Hnd].
  destruct k as [|k]; simpl in *.
  - injection Hk as ->. rewrite process_cities_other by done.
    rewrite process_city_entry, Nat.add_0_r. apply lookup_insert_eq.
  - rewrite (IH (S i) _ k) by done. do 3 f_equal. lia.
Qed.

Lemma entry_of_success w n : entry_of max_pages w = success n → 0 < n.
Proof.
  unfold entry_of. destruct (raises max_pages w); [done|].
  destruct (scrap (site w) max_pages); [done|]. intros [= <-]. simpl. lia.
Qed.

Lemma process_cities_success i cs r :
  map_Forall (λ _ entry, ∀ n, entry = success n → 0 < n) (city_stats r) →
  map_Forall (λ _ entry, ∀ n, entry = success n → 0 < n)
    (city_stats (process_cities max_pages world i cs r)).
Proof.
  revert i r. induction cs as [|c cs IH]; intros i r Hr; simpl; [done|].
  apply IH. rewrite process_city_entry. apply map_Forall_insert_2; [|done].
  apply entry_of_success.
Qed.

Lemma process_city_unrecorded city w r :
  city_stats r !! city_name city = None →
  total_listings (process_city max_pages city w r) -
  sum_listings_count (city_stats (process_city max_pages city w r)) =
  total_listings r - sum_listings_count (city_stats r) + unrecorded max_pages w.
Proof.
  intros Hnone. rewrite process_city_listed, process_city_entry.
  rewrite sum_listings_count_insert by done.
  unfold unrecorded, entry_of, listed, raises.
  destruct (scrap_fault w); simpl; [lia|].
  destruct (scrap (site w) max_pages); simpl; [lia|].
  destruct (json_upload_fault w); simpl; [lia|].
  destruct (csv_upload_fault w); simpl; lia.
Qed.

Lemma process_cities_unrecorded i cs r :
  NoDup (city_name <$> cs) →
  (∀ c, c ∈ cs → city_stats r !! city_name c = None) →
  total_listings (process_cities max_pages world i cs r) -
  sum_listings_count (city_stats (process_cities max_pages world i cs r)) =
  total_listings r - sum_listings_count (city_stats r) +
  foldr Z.add 0 ((λ j, unrecorded max_pages (world j)) <$> seq i (length cs)).
Proof.
  revert i r. induction cs as [|c cs IH]; intros i r Hnd Hfresh.
  { simpl. lia. }
  rewrite fmap_cons in Hnd. apply NoDup_cons in Hnd as [Hc Hnd].
  simpl. rewrite IH; [|done|].
  - rewrite process_city_unrecorded by (apply Hfresh; by left).
    unfold fmap. lia.
  - intros c' Hc'. rewrite process_city_other.
    + apply Hfresh. by right.
    + intros Heq. apply Hc. rewrite <- Heq. by apply list_elem_of_fmap_2.
Qed.

Lemma scrap_no_pages site pages_range :
  pages_range ≤ 0 → scrap site pages_range = [].
Proof.
  intros Hn. unfold scrap, scrap_run, page_range. by rewrite seqZ_nil by lia.
Qed.

Lemma process_cities_constant i cs r entry :
  (∀ j, entry_of max_pages (world j) = entry) →
  ∀ name, name ∈ city_name <$> cs →
  city_stats (process_cities max_pages world i cs r) !! name = Some entry.
Proof.
  intros Hall. revert i r. induction cs as [|c0 cs IH]; intros i r name Hc.
  { by apply elem_of_nil in Hc. }
  simpl. destruct (decide (name ∈ city_name <$> cs)) as [Hin|Hout]; [by apply IH|].
  rewrite fmap_cons in Hc. apply elem_of_cons in Hc as [->|Hc]; [|done].
  rewrite process_cities_other by done.
  rewrite process_city_entry, Hall. apply lookup_insert_eq.
Qed.

End Run.

(** X12. [total_listings] is the number of listings [scrap] returned over all
    iterations, whether they were stored or not: an upload that fails
    afterwards does not take them out. *)
Theorem total_listings_counts_scraped (max_pages : Z) (world : World)
    (cs : list City) :
  total_listings (run max_pages world cs) =
  foldr Z.add 0 ((λ i, listed max_pages (world i)) <$> seq 0 (length cs)).
Proof. unfold run. by rewrite process_cities_listed. Qed.

(** X13. Whatever happens, every city of the list has an entry in
    [city_stats], and nothing else has. *)
Theorem every_city_has_an_entry (max_pages : Z) (world : World)
    (cs : list City) :
  dom (city_stats (run max_pages world cs)) = list_to_set (city_name <$> cs).
Proof.
  unfold run. rewrite process_cities_dom. simpl.
  by rewrite dom_empty_L, (left_id_L ∅ (∪)).
Qed.

(** X14. With distinct names, the entry of the [k]-th city is the outcome of
    its own iteration: [error] with the message when the iteration raised,
    [no_data] when [scrap] returned nothing, [success] with the number of
    listings otherwise; later cities do not alter it. *)
Theorem city_entry_is_its_own_outcome (max_pages : Z) (world : World)
    (cs : list City) (k : nat) (c : City) :
  NoDup (city_name <$> cs) → cs !! k = Some c →
  city_stats (run max_pages world cs) !! city_name c =
  Some (entry_of max_pages (world k)).
Proof. intros Hnd Hk. unfold run. by rewrite (process_cities_entry _ _ 0 cs _ k c). Qed.

Lemma city_entry_is_its_own_outcome_witness :
  city_stats (run 5 world_upload_refused cities)
    !! city_name {| city_id := 3; city_name := "Islamabad" |} =
  Some (entry_of 5 (world_upload_refused 2%nat)).
Proof.
  apply (city_entry_is_its_own_outcome 5 world_upload_refused cities 2%nat).
  - apply cities_names_distinct.
  - reflexivity.
Defined.

(** X15. A [success] entry never has a count of 0. *)
Theorem success_entries_are_positive (max_pages : Z) (world : World)
    (cs : list City) (name : string) (n : Z) :
  city_stats (run max_pages world cs) !! name = Some (success n) → 0 < n.
Proof.
  intros Hn. unfold run in Hn.
  by apply (process_cities_success max_pages world 0 cs start
              (map_Forall_empty _) name (success n) Hn n).
Qed.

Lemma success_entries_are_positive_witness :
  city_stats (run 5 world_upload_refused cities) !! "Lahore" = Some (success 20) ∧
  0 < 20.
Proof.
  split; [by vm_compute|].
  apply (success_entries_are_positive 5 world_upload_refused cities "Lahore" 20).
  by vm_compute.
Defined.

(** X16. With distinct city names, [total_listings] exceeds the sum of the
    recorded ["listings_count"] by exactly the listings of the iterations
    that raised after counting; it is that sum when no iteration raises. *)
Theorem total_exceeds_recorded_by_failed_uploads (max_pages : Z)
    (world : World) (cs : list City) :
  NoDup (city_name <$> cs) →
  total_listings (run max_pages world cs) =
  sum_listings_count (city_stats (run max_pages world cs)) +
  foldr Z.add 0 ((λ i, unrecorded max_pages (world i)) <$> seq 0 (length cs)).
Proof.
  intros Hnd. unfold run.
  pose proof (process_cities_unrecorded max_pages world 0 cs start Hnd) as H.
  assert (Hstart : sum_listings_count (city_stats start) = 0) by done.
  rewrite Hstart in H. cbn [start total_listings] in H.
  specialize (H ltac:(done)). lia.
Qed.

Lemma total_exceeds_recorded_by_failed_uploads_witness :
  total_listings (run 5 world_upload_refused cities) =
  sum_listings_count (city_stats (run 5 world_upload_refused cities)) +
  foldr Z.add 0
    ((λ i, unrecorded 5 (world_upload_refused i)) <$> seq 0 (length cities)).
Proof.
  apply (total_exceeds_recorded_by_failed_uploads 5 world_upload_refused cities).
  apply cities_names_distinct.
Defined.

(** X17. With [max_pages <= 0] no page is requested: unless [scrap] itself
    raises, every city is recorded as ["no_data"] and [total_listings] stays
    0, whatever the site holds. *)
Theorem no_pages_no_data (max_pages : Z) (world : World) (cs : list City) :
  max_pages ≤ 0 →
  (∀ i, scrap_fault (world i) = None) →
  total_listings (run max_pages world cs) = 0 ∧
  ∀ c, c ∈ cs →
    city_stats (run max_pages world cs) !! city_name c = Some no_data.
Proof.
  intros Hn Hfault. split.
  - unfold run. rewrite process_cities_listed. cbn [start total_listings].
    generalize (seq 0 (length cs)). intros l. induction l as [|i l IH]; [done|].
    rewrite fmap_cons. cbn [foldr]. unfold listed at 1.
    rewrite Hfault, scrap_no_pages by done. simpl. lia.
  - intros c Hc. apply process_cities_constant.
    + intros j. unfold entry_of, raises. by rewrite Hfault, scrap_no_pages.
    + by apply list_elem_of_fmap_2.
Qed.

Lemma no_pages_no_data_witness :
  total_listings (run 0 world_fine cities) = 0 ∧
  ∀ c, c ∈ cities →
    city_stats (run 0 world_fine cities) !! city_name c = Some no_data.
Proof. apply (no_pages_no_data 0 world_fine cities); [lia|done]. Defined.
